(** * SecureVault Offline: a shallow embedding of the vault engine,
      the PWA service worker and the subscription analytics.

    Sources embedded here:
    - [client/public/sw.js]                      (module [ServiceWorker])
    - the [SubscriptionAnalytics] React component (module [SubscriptionAnalytics])
    - [ARCHITECTURE.md], "Encryption Strategy"   (module [CryptoService])
    - [ARCHITECTURE.md], "Key Management" and [savePassword] of
      "Client-Side Storage Architecture"         (module [KeyManager])

    The browser's Web Crypto operations are an interface (module
    [WebCrypto]). What the specification describes and the sources do not
    contain (decryption, the key check, rekey, import) is modelled from the
    specification and marked as such (modules [CryptoService], [DataModel],
    [KeyManager], [VaultEngine]).

    Definitions come first, the theorems about them follow in the second
    half of the file. *)

From Stdlib Require Import ZArith String Ascii List Bool Floats Lia.
From stdpp Require Import base option list gmap strings.

Import ListNotations.
Local Open Scope string_scope.
Local Open Scope list_scope.

(* ===================================================================== *)
(** * Part I. Definitions                                                *)
(* ===================================================================== *)

(* --------------------------------------------------------------------- *)
(** ** The service worker, [client/public/sw.js]                         *)
(* --------------------------------------------------------------------- *)

Module ServiceWorker.

Definition CACHE_NAME    : string := "securevault-v1.0.0".
Definition STATIC_CACHE  : string := "securevault-static-v1.0.0".
Definition DYNAMIC_CACHE : string := "securevault-dynamic-v1.0.0".

(** URLs that should always try network first (never cache sensitive data). *)
Definition NETWORK_ONLY_URLS : list string :=
  [ "/api/vault"; "/api/passwords"; "/api/subscriptions";
    "/api/auth"; "/api/session" ].

(** URLs that should try network first but can fall back to cache. *)
Definition NETWORK_FIRST_URLS : list string := [ "/api/"; "/server/" ].

(** URLs that should be cached (static assets only). *)
Definition CACHE_FIRST_URLS : list string :=
  [ "/assets/"; "/icons/"; "/screenshots/"; ".css"; ".js"; ".png"; ".jpg";
    ".jpeg"; ".gif"; ".webp"; ".svg"; ".woff"; ".woff2" ].

(** [new URL(request.url)]: the parts of the parsed URL the worker reads. *)
Record URL := mkURL {
  href     : string;
  protocol : string;
  pathname : string
}.

Record Request := mkRequest {
  method      : string;
  url         : URL;
  destination : string
}.

Record Response := mkResponse {
  status       : N;
  statusText   : string;
  body         : string;
  content_type : option string
}.

(** [response.ok]: the status is in the range 200-299. *)
Definition ok (r : Response) : bool :=
  ((200 <=? status r) && (status r <=? 299))%N.

(** JavaScript string predicates used by the three classifiers. *)
Definition startsWith (s pattern : string) : bool := String.prefix pattern s.

Definition includes (s pattern : string) : bool :=
  match String.index 0 pattern s with
  | Some _ => true
  | None => false
  end.

Definition endsWith (s pattern : string) : bool :=
  let n := String.length s in
  let k := String.length pattern in
  (k <=? n)%nat && String.eqb (String.substring (n - k) k s) pattern.

(** [Array.prototype.some]. *)
Definition some {A} (p : A -> bool) (l : list A) : bool := existsb p l.

Definition shouldUseNetworkOnly (u : URL) : bool :=
  some (fun pattern => startsWith (pathname u) pattern) NETWORK_ONLY_URLS.

Definition shouldUseNetworkFirst (u : URL) : bool :=
  some (fun pattern => startsWith (pathname u) pattern) NETWORK_FIRST_URLS.

Definition shouldUseCacheFirst (u : URL) : bool :=
  some (fun pattern => includes (pathname u) pattern
                       || endsWith (pathname u) pattern)
       CACHE_FIRST_URLS.

(** The Cache Storage of the origin: named caches in creation order, each
    one a map from request URL to the stored response. *)
Definition CacheStorage : Type := list (string * gmap string Response).

(** [caches.match(request)]: the first cache, in creation order, holding
    an entry for the request; [None] stands for [undefined]. *)
Fixpoint caches_match (caches : CacheStorage) (key : string) : option Response :=
  match caches with
  | [] => None
  | (_, c) :: rest =>
      match c !! key with
      | Some r => Some r
      | None => caches_match rest key
      end
  end.

(** The network as seen by one run of the handler: [fetch(request)]
    resolves to a response ([Some]) or rejects ([None]). *)
Definition Network : Type := Request -> option Response.

(** Cache writes started by a handler,
    [caches.open(name).then(cache => cache.put(request, response))]. *)
Inductive CacheOp :=
| CachePut (cacheName : string) (key : string) (r : Response).

(** What a strategy yields: the response handed to [respondWith] ([None]
    when the promise resolves to [undefined]) and the cache writes it
    started, in program order. *)
Definition Outcome : Type := option Response * list CacheOp.

Definition networkUnavailable : Response :=
  {| status := 503; statusText := "Service Unavailable";
     body := "Network unavailable - sensitive data requires connection";
     content_type := Some "text/plain" |}.

Definition offlineUnavailable : Response :=
  {| status := 503; statusText := "Service Unavailable";
     body := "Offline - Content not available";
     content_type := Some "text/plain" |}.

(** This one is built without headers: the content type is the one a
    [Response] gets from a string body. *)
Definition resourceUnavailable : Response :=
  {| status := 503; statusText := "Service Unavailable";
     body := "Resource not available offline";
     content_type := Some "text/plain;charset=UTF-8" |}.

(** Network-only strategy - never cache sensitive data. *)
Definition networkOnlyStrategy (fetch : Network) (request : Request) : Outcome :=
  match fetch request with
  | Some networkResponse => (Some networkResponse, [])
  | None => (Some networkUnavailable, [])
  end.

(** Network first strategy - try network, fall back to cache. In the
    [catch] branch [caches.match('/offline.html') || getOfflinePage()]
    has a promise on the left of [||], which is truthy, so the right
    operand is never evaluated. *)
Definition networkFirstStrategy
    (fetch : Network) (caches : CacheStorage) (request : Request) : Outcome :=
  match fetch request with
  | Some networkResponse =>
      let puts :=
        if ok networkResponse then
          if negb (shouldUseNetworkOnly (url request)) then
            [CachePut DYNAMIC_CACHE (href (url request)) networkResponse]
          else []
        else [] in
      (Some networkResponse, puts)
  | None =>
      match caches_match caches (href (url request)) with
      | Some cachedResponse => (Some cachedResponse, [])
      | None =>
          if String.eqb (destination request) "document" then
            (caches_match caches "/offline.html", [])
          else (Some offlineUnavailable, [])
      end
  end.

(** Cache first strategy - try cache, fall back to network. On a hit the
    cache entry is refreshed in the background. *)
Definition cacheFirstStrategy
    (fetch : Network) (caches : CacheStorage) (request : Request) : Outcome :=
  match caches_match caches (href (url request)) with
  | Some cachedResponse =>
      let puts :=
        match fetch request with
        | Some response =>
            if ok response then
              [CachePut STATIC_CACHE (href (url request)) response]
            else []
        | None => []
        end in
      (Some cachedResponse, puts)
  | None =>
      match fetch request with
      | Some networkResponse =>
          (Some networkResponse,
           if ok networkResponse then
             [CachePut STATIC_CACHE (href (url request)) networkResponse]
           else [])
      | None => (Some resourceUnavailable, [])
      end
  end.

(** Handle different fetch strategies. *)
Definition handleFetchRequest
    (fetch : Network) (caches : CacheStorage) (request : Request) : Outcome :=
  if shouldUseNetworkOnly (url request) then
    networkOnlyStrategy fetch request
  else if shouldUseNetworkFirst (url request) then
    networkFirstStrategy fetch caches request
  else if shouldUseCacheFirst (url request) then
    cacheFirstStrategy fetch caches request
  else
    networkFirstStrategy fetch caches request.


End ServiceWorker.

(* --------------------------------------------------------------------- *)
(** ** Spending analytics, the [SubscriptionAnalytics] component          *)
(* --------------------------------------------------------------------- *)

Module SubscriptionAnalytics.

Local Open Scope float_scope.
Local Set Warnings "-inexact-float".

(** The fields of [SubscriptionEntry] read by [categoryAnalytics]. A
    JavaScript [number] is an IEEE 754 binary64 value, which is what
    [float] is. [category] is [None] when the property is absent. *)
Record SubscriptionEntry := mkSubscription {
  name         : string;
  category     : option string;
  cost         : float;
  billingCycle : string;
  currency     : string;
  isActive     : bool
}.

Record CurrencySettings := mkCurrencySettings {
  baseCurrency  : string;
  exchangeRates : gmap string float
}.

Definition DEFAULT_CURRENCY_SETTINGS : CurrencySettings :=
  {| baseCurrency := "USD";
     exchangeRates :=
       <["USD" := 1.0]> (<["EUR" := 0.85]> (<["GBP" := 0.73]>
       (<["CAD" := 1.36]> (<["AUD" := 1.52]> (<["JPY" := 149.5]> ∅))))) |}.

(** Truthiness of a number: [0], [-0] and [NaN] are falsy. *)
Definition truthy (x : float) : bool :=
  negb (PrimFloat.eqb x 0 || PrimFloat.is_nan x).

(** The properties every plain object inherits from [Object.prototype].
    [exchangeRates] is an object literal or the result of [JSON.parse], so
    [exchangeRates[c]] finds one of these when the object has no own
    property [c]. Each of them is a function or, for [__proto__], an
    object. *)
Definition OBJECT_PROTOTYPE_PROPERTIES : list string :=
  [ "constructor"; "hasOwnProperty"; "isPrototypeOf"; "propertyIsEnumerable";
    "toLocaleString"; "toString"; "valueOf"; "__proto__";
    "__defineGetter__"; "__defineSetter__";
    "__lookupGetter__"; "__lookupSetter__" ].

Definition isInherited (c : string) : bool :=
  existsb (String.eqb c) OBJECT_PROTOTYPE_PROPERTIES.

(** [exchangeRates[c] || 1], as the number it is in the arithmetic that
    follows. The gmap holds the own properties of the object. An own rate
    that is [0] or [NaN] is falsy and gives [1]; so does a property that
    is not found at all. An inherited property is truthy, so it is what
    [||] yields, and as an operand of [/] or [*] a function or an object
    converts to [NaN]. *)
Definition rateOr1 (rates : gmap string float) (c : string) : float :=
  match rates !! c with
  | Some r => if truthy r then r else 1
  | None => if isInherited c then PrimFloat.nan else 1
  end.

(** Currency conversion helper. *)
Definition convertToBaseCurrency
    (currencySettings : CurrencySettings) (amount : float) (fromCurrency : string)
    : float :=
  let fromRate := rateOr1 (exchangeRates currencySettings) fromCurrency in
  let baseCurrencyRate :=
    rateOr1 (exchangeRates currencySettings) (baseCurrency currencySettings) in
  (amount / fromRate) * baseCurrencyRate.

Record CategoryTotals := mkTotals {
  monthly       : float;
  yearly        : float;
  count         : N;
  subscriptions : list SubscriptionEntry
}.

Definition zeroTotals : CategoryTotals :=
  {| monthly := 0; yearly := 0; count := 0%N; subscriptions := [] |}.

(** [sub.category || 'Other']: an absent or empty category is 'Other'. *)
Definition categoryOf (sub : SubscriptionEntry) : string :=
  match category sub with
  | Some c => if String.eqb c "" then "Other" else c
  | None => "Other"
  end.

(** The [switch] on [billingCycle]: normalize to monthly spending. *)
Definition normalizeToMonthly (sub : SubscriptionEntry) : float :=
  if String.eqb (billingCycle sub) "yearly" then cost sub / 12
  else if String.eqb (billingCycle sub) "weekly" then cost sub * 4.33
  else if String.eqb (billingCycle sub) "daily" then cost sub * 30
  else cost sub.

(** A [forEach] whose callback may throw ([None]); the exception ends
    the loop and is the result. *)
Fixpoint forEach {A S : Type} (f : S -> A -> option S) (l : list A) (s : S)
    : option S :=
  match l with
  | [] => Some s
  | x :: rest =>
      match f s x with
      | Some s' => forEach f rest s'
      | None => None
      end
  end.

(** The body of [activeSubscriptions.forEach]. Reading [.monthly] of
    [categoryData[category]] when the category was not initialised is a
    [TypeError] ([None]). *)
Definition accumulate
    (currencySettings : CurrencySettings)
    (categoryData : gmap string CategoryTotals) (sub : SubscriptionEntry)
    : option (gmap string CategoryTotals) :=
  let category := categoryOf sub in
  let monthlyAmount := normalizeToMonthly sub in
  let convertedMonthlyAmount :=
    convertToBaseCurrency currencySettings monthlyAmount (currency sub) in
  match categoryData !! category with
  | None => None
  | Some d =>
      Some (<[category :=
               {| monthly := monthly d + convertedMonthlyAmount;
                  yearly := yearly d + convertedMonthlyAmount * 12;
                  count := (count d + 1)%N;
                  subscriptions := subscriptions d ++ [sub] |}]> categoryData)
  end.

(** Initialize all categories with zero spending. *)
Definition initCategories (SUBSCRIPTION_CATEGORIES : list string)
    : gmap string CategoryTotals :=
  fold_left (fun categoryData category => <[category := zeroTotals]> categoryData)
            SUBSCRIPTION_CATEGORIES ∅.

(** Calculate category spending breakdown. [SUBSCRIPTION_CATEGORIES] is
    imported from [@shared/schema] and is a parameter here. *)
Definition categoryAnalytics
    (SUBSCRIPTION_CATEGORIES : list string)
    (currencySettings : CurrencySettings)
    (subscriptions : list SubscriptionEntry)
    : option (gmap string CategoryTotals) :=
  let activeSubscriptions := List.filter isActive subscriptions in
  forEach (accumulate currencySettings) activeSubscriptions
          (initCategories SUBSCRIPTION_CATEGORIES).

(** *** What the loop adds up *)

(** A subscription's monthly cost in the base currency, as the loop
    computes it. *)
Definition monthlyInBase
    (currencySettings : CurrencySettings) (sub : SubscriptionEntry) : float :=
  convertToBaseCurrency currencySettings (normalizeToMonthly sub) (currency sub).

(** The active subscriptions of one category, in their original order. *)
Definition activeIn (c : string) (subs : list SubscriptionEntry)
    : list SubscriptionEntry :=
  List.filter (fun sub => isActive sub && String.eqb (categoryOf sub) c) subs.

(** Sum of a list of numbers, added left to right starting from [0]. *)
Definition sum (xs : list float) : float := fold_left PrimFloat.add xs 0.

(** *** The totals as the amended claim words them

    These definitions are written from the words of the claim and use
    none of the functions above. *)








End SubscriptionAnalytics.

(* --------------------------------------------------------------------- *)
(** ** The browser's Web Crypto primitives                                *)
(* --------------------------------------------------------------------- *)

Module WebCrypto.

(** A [Uint8Array]. *)
Definition bytes : Type := list Byte.byte.

(** The operations of [crypto.subtle] the vault calls. They belong to the
    browser, not to the repository, and are an interface here.
    - [CryptoKey] is the opaque, non-extractable key handle;
    - [pbkdf2_deriveKey raw salt iterations hash length] is
      [importKey('raw', raw, 'PBKDF2', ...)] followed by
      [deriveKey({name: 'PBKDF2', salt, iterations, hash}, baseKey,
      {name: 'AES-GCM', length}, ...)];
    - [aes_gcm_encrypt key iv plaintext] is
      [encrypt({name: 'AES-GCM', iv}, key, plaintext)], ciphertext and tag;
    - [aes_gcm_decrypt key iv data] is the matching [decrypt], which
      rejects ([None]) when the tag does not verify. *)
Class Primitives : Type := {
  CryptoKey : Type;
  pbkdf2_deriveKey : bytes -> bytes -> N -> string -> N -> CryptoKey;
  aes_gcm_encrypt : CryptoKey -> bytes -> bytes -> bytes;
  aes_gcm_decrypt : CryptoKey -> bytes -> bytes -> option bytes
}.

(** Functional correctness of AES-GCM: decryption under the key and IV
    used for encryption verifies the tag and returns the plaintext. *)
Class Correct (P : Primitives) : Prop := {
  aes_gcm_decrypt_encrypt :
    forall (key : CryptoKey) (iv plaintext : bytes),
      aes_gcm_decrypt key iv (aes_gcm_encrypt key iv plaintext) = Some plaintext
}.

(** [new TextEncoder().encode(s)]. A JavaScript string is represented by
    its UTF-8 encoding, which is what a [string] holds; strings with
    unpaired surrogates are outside the model, and a [string] that is not
    well-formed UTF-8 ([wellFormed] below) stands for no JavaScript
    string. *)
Definition TextEncoder_encode (s : string) : bytes := list_byte_of_string s.

(** The UTF-8 decoder behind [TextDecoder] (Encoding Standard, "UTF-8
    decoder"): the bytes of the code point being read, the number of
    continuation bytes still needed, and the bounds of the next one. *)
Record Utf8Decoder := mkUtf8Decoder {
  bytesSeen     : bytes;
  bytesNeeded   : nat;
  lowerBoundary : N;
  upperBoundary : N
}.

Definition initialDecoder : Utf8Decoder :=
  {| bytesSeen := []; bytesNeeded := 0;
     lowerBoundary := 0x80; upperBoundary := 0xBF |}.

(** U+FFFD, the replacement character, in UTF-8. *)
Definition REPLACEMENT : bytes := [Byte.xef; Byte.xbf; Byte.xbd].

(** A byte met when no code point is being read. *)
Definition firstByte (b : Byte.byte) : bytes * Utf8Decoder :=
  let n := Byte.to_N b in
  if (n <=? 0x7F)%N then ([b], initialDecoder)
  else if ((0xC2 <=? n) && (n <=? 0xDF))%N then
    ([], {| bytesSeen := [b]; bytesNeeded := 1;
            lowerBoundary := 0x80; upperBoundary := 0xBF |})
  else if ((0xE0 <=? n) && (n <=? 0xEF))%N then
    ([], {| bytesSeen := [b]; bytesNeeded := 2;
            lowerBoundary := if (n =? 0xE0)%N then 0xA0 else 0x80;
            upperBoundary := if (n =? 0xED)%N then 0x9F else 0xBF |})
  else if ((0xF0 <=? n) && (n <=? 0xF4))%N then
    ([], {| bytesSeen := [b]; bytesNeeded := 3;
            lowerBoundary := if (n =? 0xF0)%N then 0x90 else 0x80;
            upperBoundary := if (n =? 0xF4)%N then 0x8F else 0xBF |})
  else (REPLACEMENT, initialDecoder).

(** One byte of input. A byte outside the bounds ends the code point
    being read with U+FFFD and is then read again as a first byte. *)
Definition decodeByte (st : Utf8Decoder) (b : Byte.byte)
    : bytes * Utf8Decoder :=
  match bytesNeeded st with
  | O => firstByte b
  | S k =>
      let n := Byte.to_N b in
      if ((lowerBoundary st <=? n) && (n <=? upperBoundary st))%N then
        match k with
        | O => (bytesSeen st ++ [b], initialDecoder)
        | S _ => ([], {| bytesSeen := bytesSeen st ++ [b]; bytesNeeded := k;
                         lowerBoundary := 0x80; upperBoundary := 0xBF |})
        end
      else
        let '(out, st') := firstByte b in (REPLACEMENT ++ out, st')
  end.

(** The decoded text, in UTF-8; input that ends inside a code point ends
    with U+FFFD. *)
Fixpoint utf8Decode (st : Utf8Decoder) (input : bytes) : bytes :=
  match input with
  | [] => match bytesNeeded st with O => [] | S _ => REPLACEMENT end
  | b :: rest =>
      let '(out, st') := decodeByte st b in out ++ utf8Decode st' rest
  end.

(** Well-formed UTF-8, which the decoder returns as it is: the byte
    sequences that are the encoding of a JavaScript string. *)
Definition wellFormed (b : bytes) : Prop := utf8Decode initialDecoder b = b.

(** A byte order mark at the start of the input is not part of the
    text. *)
Definition stripBOM (input : bytes) : bytes :=
  match input with
  | b1 :: b2 :: b3 :: rest =>
      if ((Byte.to_N b1 =? 0xEF) && (Byte.to_N b2 =? 0xBB)
          && (Byte.to_N b3 =? 0xBF))%N
      then rest else input
  | _ => input
  end.

(** [new TextDecoder().decode(b)]: UTF-8, not fatal, the byte order mark
    not kept. Bytes that are not well-formed UTF-8 are replaced by
    U+FFFD. *)
Definition TextDecoder_decode (b : bytes) : string :=
  string_of_list_byte (utf8Decode initialDecoder (stripBOM b)).

(** The entropy source behind [crypto.getRandomValues]: a tape of bytes
    and the position of the next unread byte. *)
Record Entropy := mkEntropy {
  tape : nat -> Byte.byte;
  position : nat
}.

(** [crypto.getRandomValues(new Uint8Array(n))]. *)
Definition getRandomValues (n : nat) (e : Entropy) : bytes * Entropy :=
  (List.map (tape e) (List.seq (position e) n),
   {| tape := tape e; position := position e + n |}).

(** How PBKDF2 uses the password. PBKDF2 iterates HMAC with the password
    as its key, and HMAC uses a key through its key block: a key no longer
    than the block of the hash, 64 bytes for SHA-256, is padded with zero
    bytes to the length of the block (RFC 2104, section 2). A longer key
    is hashed first, which is not modelled ([None]). *)
Definition HMAC_SHA256_BLOCK : nat := 64.

Definition hmacKeyBlock (raw : bytes) : option bytes :=
  if (length raw <=? HMAC_SHA256_BLOCK)%nat
  then Some (raw ++ List.repeat Byte.x00 (HMAC_SHA256_BLOCK - length raw))
  else None.


(** A small model of the interface, used to run the definitions on
    concrete inputs: a key is the key block of the password (the password
    itself when it is longer than a block), and a ciphertext is the
    plaintext behind a tag that spells out the key, every key byte after a
    [01] and a [00] at the end. *)
Fixpoint toy_tag (key : bytes) : bytes :=
  match key with
  | [] => [Byte.x00]
  | b :: rest => Byte.x01 :: b :: toy_tag rest
  end.

Fixpoint toy_untag (data : bytes) : option (bytes * bytes) :=
  match data with
  | Byte.x00 :: plaintext => Some ([], plaintext)
  | Byte.x01 :: b :: rest =>
      match toy_untag rest with
      | Some (key, plaintext) => Some (b :: key, plaintext)
      | None => None
      end
  | _ => None
  end.

Fixpoint bytes_eqb (a b : bytes) : bool :=
  match a, b with
  | [], [] => true
  | x :: a', y :: b' => Byte.eqb x y && bytes_eqb a' b'
  | _, _ => false
  end.

Definition toy : Primitives := {|
  CryptoKey := bytes;
  pbkdf2_deriveKey raw _ _ _ _ :=
    match hmacKeyBlock raw with
    | Some block => block
    | None => raw
    end;
  aes_gcm_encrypt key _ plaintext := toy_tag key ++ plaintext;
  aes_gcm_decrypt key _ data :=
    match toy_untag data with
    | Some (k, plaintext) => if bytes_eqb k key then Some plaintext else None
    | None => None
    end
|}.

End WebCrypto.

(* --------------------------------------------------------------------- *)
(** ** Error kinds of the vault engine (specification, section 7)         *)
(* --------------------------------------------------------------------- *)

(** Modelled from the spec: the error kinds of section 7. The sources
    signal failure by a rejected promise or by [false]. *)
Inductive Error :=
| InvalidCredentials
| VaultLocked
| AuthenticationFailed
| NotFound
| InvalidParams
| RekeyAborted
| ImportAuthenticationFailed
| StorageFailure.

(* --------------------------------------------------------------------- *)
(** ** [lib/crypto.ts], class [CryptoService]                             *)
(* --------------------------------------------------------------------- *)

Module CryptoService.
Import WebCrypto.

(** [EncryptedData], the envelope returned by [encrypt]. *)
Record EncryptedData := mkEncryptedData {
  data      : bytes;
  iv        : bytes;
  algorithm : string
}.

(** Modelled from the spec: the KDF parameters of the data model,
    "kdfParams: {iterations, memoryCost?, algorithm}". The sources have no
    such type. *)
Record KdfParams := mkKdfParams {
  iterations     : N;
  memoryCost     : option N;
  kdf_algorithm  : string
}.

Section WithPrimitives.
Context {P : Primitives}.

(** Key derivation from master password. The PBKDF2 parameters are
    literals of the method: it has no parameter for them. *)
Definition deriveKey (password : string) (salt : bytes) : CryptoKey :=
  pbkdf2_deriveKey (TextEncoder_encode password) salt 100000 "SHA-256" 256.

(** The specification's [KeyDerivation.derive(password, salt, params)]
    as the code provides it: [deriveKey] is the only key derivation and
    it does not receive [params]. *)
Definition derive (password : string) (salt : bytes) (params : KdfParams)
    : Error + CryptoKey :=
  inr (deriveKey password salt).

(** Encryption with AES-GCM under a fresh random 12-byte IV. *)
Definition encrypt (data : string) (key : CryptoKey) (e : Entropy)
    : EncryptedData * Entropy :=
  let (iv, e') := getRandomValues 12 e in
  let encoded := TextEncoder_encode data in
  let encrypted := aes_gcm_encrypt key iv encoded in
  ({| data := encrypted; iv := iv; algorithm := "AES-GCM" |}, e').

(** Modelled from the spec: [CipherService.decrypt(envelope, key) ->
    bytes], which the sources only call from a test. "Fails with
    AuthenticationFailed if the integrity tag does not verify"; "nonce
    length and key length fixed by the chosen algorithm and validated on
    every call", with [InvalidParams] for "cipher parameters outside
    safe bounds". *)
Definition decrypt (envelope : EncryptedData) (key : CryptoKey)
    : Error + bytes :=
  if negb (String.eqb (algorithm envelope) "AES-GCM") then inl InvalidParams
  else if negb (length (iv envelope) =? 12)%nat then inl InvalidParams
  else
    match aes_gcm_decrypt key (iv envelope) (data envelope) with
    | Some plaintext => inr plaintext
    | None => inl AuthenticationFailed
    end.

End WithPrimitives.

End CryptoService.

(* --------------------------------------------------------------------- *)
(** ** The vault's data model (specification, section 3)                  *)
(* --------------------------------------------------------------------- *)

Module DataModel.
Import WebCrypto CryptoService.

(** Modelled from the spec: [VaultMetadata], whose declaration is not in
    the sources (they read [metadata.salt] only). "{ formatVersion, salt,
    kdfParams, keyCheckEnvelope: Envelope (encryption of a known constant,
    used to verify a candidate key without decrypting real data) }". *)
Record VaultMetadata := mkVaultMetadata {
  formatVersion    : N;
  salt             : bytes;
  kdfParams        : KdfParams;
  keyCheckEnvelope : EncryptedData
}.

(** Modelled from the spec: the "known constant" behind the key check.
    The specification leaves its value open. *)
Definition KEY_CHECK_CONSTANT : string := "securevault-key-check".

(** Modelled from the spec: "category: enum {Password, Subscription, Note,
    Expense, ...}". *)
Inductive Category := Password | Subscription | Note | Expense.

(** Modelled from the spec: [Record], "{ id, category, envelope,
    lastModified }". *)
Record VaultRecord := mkVaultRecord {
  id           : string;
  category     : Category;
  envelope     : EncryptedData;
  lastModified : N
}.

(** Modelled from the spec: [VaultBundle], "{ metadata, records: ordered
    sequence of Record }". *)
Record VaultBundle := mkVaultBundle {
  bundle_metadata : VaultMetadata;
  bundle_records  : list VaultRecord
}.

(** [PasswordEntry] as [savePassword] uses it: its [id] and its
    serialisation [JSON.stringify(password)]. *)
Record PasswordEntry := mkPasswordEntry {
  entry_id : string;
  json     : string
}.

(** Modelled from the spec: the key check, which the sources do not
    contain. "VaultMetadata.keyCheckEnvelope decrypts to the same known
    constant for every successful unlock; decrypt failure on this envelope
    is the authoritative wrong password signal." *)
Definition keyCheckPasses {P : Primitives}
    (metadata : VaultMetadata) (key : CryptoKey) : bool :=
  match decrypt (keyCheckEnvelope metadata) key with
  | inr plaintext => String.eqb (TextDecoder_decode plaintext) KEY_CHECK_CONSTANT
  | inl _ => false
  end.

End DataModel.

(* --------------------------------------------------------------------- *)
(** ** Key management: class [KeyManager] and the storage that uses the key *)
(* --------------------------------------------------------------------- *)

Module KeyManager.
Import WebCrypto CryptoService DataModel.

(** What an operation of the key manager does to its surroundings: the
    timer calls, the call of [clearSensitiveState()], and events sent to
    subscribers. *)
Inductive Effect :=
| SetTimeout (id : positive) (delay : N)
| ClearTimeout (id : positive)
| ClearSensitiveState
| EmitEvent (name : string).

Section WithPrimitives.
Context {P : Primitives}.

(** The two private fields of the class. *)
Record Fields := mkFields {
  masterKey     : option CryptoKey;
  autoLockTimer : option positive
}.

(** The key manager in its runtime: the clock in milliseconds, the
    timers [setTimeout] has scheduled and not yet run (identifier and
    due time, in scheduling order; every callback is [() =>
    this.lock()]), the metadata [getVaultMetadata()] resolves to
    ([None]: it rejects), the IndexedDB object store ['passwords'], and
    the entropy source. *)
Record World := mkWorld {
  manager       : Fields;
  clock         : N;
  nextTimerId   : positive;
  pendingTimers : list (positive * N);
  vaultMetadata : option VaultMetadata;
  passwords     : gmap string EncryptedData;
  entropy       : Entropy
}.

Definition setManager (m : Fields) (w : World) : World :=
  {| manager := m; clock := clock w; nextTimerId := nextTimerId w;
     pendingTimers := pendingTimers w; vaultMetadata := vaultMetadata w;
     passwords := passwords w; entropy := entropy w |}.

Definition setPendingTimers (ts : list (positive * N)) (w : World) : World :=
  {| manager := manager w; clock := clock w; nextTimerId := nextTimerId w;
     pendingTimers := ts; vaultMetadata := vaultMetadata w;
     passwords := passwords w; entropy := entropy w |}.

Definition isUnlocked (w : World) : bool :=
  match masterKey (manager w) with
  | Some _ => true
  | None => false
  end.

(** [clearTimeout(id)]. *)
Definition clearTimeout (id : positive) (w : World) : World :=
  setPendingTimers
    (List.filter (fun t => negb (Pos.eqb (fst t) id)) (pendingTimers w)) w.

(** [setTimeout(callback, delay)]: returns the new identifier. *)
Definition setTimeout (delay : N) (w : World) : positive * World :=
  let id := nextTimerId w in
  (id,
   {| manager := manager w; clock := clock w; nextTimerId := Pos.succ id;
      pendingTimers := pendingTimers w ++ [(id, (clock w + delay)%N)];
      vaultMetadata := vaultMetadata w; passwords := passwords w;
      entropy := entropy w |}).

(** [lock()]: secure key cleanup, clear timers, clear sensitive UI
    state. *)
Definition lock (w : World) : World * list Effect :=
  let w1 := setManager {| masterKey := None;
                          autoLockTimer := autoLockTimer (manager w) |} w in
  let '(w2, cleared) :=
    match autoLockTimer (manager w1) with
    | Some id =>
        (setManager {| masterKey := masterKey (manager w1);
                       autoLockTimer := None |} (clearTimeout id w1),
         [ClearTimeout id])
    | None => (w1, [])
    end in
  (w2, cleared ++ [ClearSensitiveState]).

(** [setAutoLockTimer()]. *)
Definition setAutoLockTimer (w : World) : World * list Effect :=
  let timeout := (15 * 60 * 1000)%N in
  let '(id, w1) := setTimeout timeout w in
  (setManager {| masterKey := masterKey (manager w1);
                 autoLockTimer := Some id |} w1,
   [SetTimeout id timeout]).

(** Modelled from the spec: [verifyKey()], a method the sources call
    but do not define. "Verify against keyCheckEnvelope via
    CipherService.decrypt": the key check envelope must decrypt, under
    the key in memory, to the known constant; [false] stands for the
    exception. *)
Definition verifyKey (metadata : VaultMetadata) (w : World) : bool :=
  match masterKey (manager w) with
  | Some key => keyCheckPasses metadata key
  | None => false
  end.

(** [unlock(password)]. The [try] block stores the derived key in
    [this.masterKey] before it verifies it; the [catch] block calls
    [lock()] and the method resolves to [false]. *)
Definition unlock (password : string) (w : World)
    : bool * World * list Effect :=
  match vaultMetadata w with
  | None =>
      let '(w', fx) := lock w in (false, w', fx)
  | Some metadata =>
      let w1 :=
        setManager {| masterKey := Some (deriveKey password (salt metadata));
                      autoLockTimer := autoLockTimer (manager w) |} w in
      if verifyKey metadata w1 then
        let '(w2, fx) := setAutoLockTimer w1 in (true, w2, fx)
      else
        let '(w2, fx) := lock w1 in (false, w2, fx)
  end.

(** The event loop runs the timers that are due at time [t], in
    scheduling order; a callback is [lock()], which may cancel another
    pending timer. [fuel] bounds the number of callbacks by the number
    of timers pending at the start. *)
Fixpoint runTimers (fuel : nat) (t : N) (w : World) : World * list Effect :=
  match fuel with
  | O => (w, [])
  | S fuel' =>
      match List.find (fun timer => (snd timer <=? t)%N) (pendingTimers w) with
      | Some (id, _) =>
          let '(w1, fx1) := lock (clearTimeout id w) in
          let '(w2, fx2) := runTimers fuel' t w1 in
          (w2, fx1 ++ fx2)
      | None => (w, [])
      end
  end.

(** [dt] milliseconds pass. *)
Definition advance (dt : N) (w : World) : World * list Effect :=
  let t := (clock w + dt)%N in
  runTimers (length (pendingTimers w)) t
    {| manager := manager w; clock := t; nextTimerId := nextTimerId w;
       pendingTimers := pendingTimers w; vaultMetadata := vaultMetadata w;
       passwords := passwords w; entropy := entropy w |}.

(** [IndexedDBVaultStorage.savePassword(password)]. The method reads
    [this.masterKey], a field the storage class does not declare, and the
    sources do not say where that key comes from. It is taken to be the
    key the key manager holds; what is stated about [savePassword] below
    is relative to that key. Without a key [crypto.subtle.encrypt]
    rejects and nothing is stored ([false]). The method does not touch
    the key manager or the auto-lock timer. *)
Definition savePassword (password : PasswordEntry) (w : World)
    : bool * World :=
  match masterKey (manager w) with
  | Some key =>
      let '(encrypted, e') := encrypt (json password) key (entropy w) in
      (true,
       {| manager := manager w; clock := clock w;
          nextTimerId := nextTimerId w; pendingTimers := pendingTimers w;
          vaultMetadata := vaultMetadata w;
          passwords := <[entry_id password := encrypted]> (passwords w);
          entropy := e' |})
  | None =>
      (false,
       {| manager := manager w; clock := clock w;
          nextTimerId := nextTimerId w; pendingTimers := pendingTimers w;
          vaultMetadata := vaultMetadata w; passwords := passwords w;
          entropy := snd (getRandomValues 12 (entropy w)) |})
  end.

(** What happens to an unlocked vault between two explicit calls of
    [unlock] or [lock]: time passes, or a vault operation runs. *)
Inductive Activity :=
| Idle (dt : N)
| Save (password : PasswordEntry).

Definition step (w : World) (a : Activity) : World :=
  match a with
  | Idle dt => fst (advance dt w)
  | Save password => snd (savePassword password w)
  end.

Definition run (activities : list Activity) (w : World) : World :=
  fold_left step activities w.



(** None of the timers is due at time [t]. *)
Definition noneDue (timers : list (positive * N)) (t : N) : bool :=
  forallb (fun timer => (t <? snd timer)%N) timers.

(** The state after an [unlock] from the Locked state that armed timer
    [id] for time [due], as long as the timer has not fired: the key is
    held and the timer is the one pending. *)
Definition armed (id : positive) (due : N) (w : World) : Prop :=
  (clock w < due)%N /\ isUnlocked w = true /\
  autoLockTimer (manager w) = Some id /\ pendingTimers w = [(id, due)].

End WithPrimitives.

End KeyManager.

(* --------------------------------------------------------------------- *)
(** ** Rekey and import (specification, sections 4.4 to 4.6)              *)
(* --------------------------------------------------------------------- *)

Module VaultEngine.
Import WebCrypto CryptoService DataModel.

(** Modelled from the spec: what reaches the untrusted datastore. The
    record store has no cross-record transactions, so "callers needing
    multi-record atomicity (e.g., rekey) must stage all new envelopes and
    commit them as a single batch operation". *)
Inductive Write :=
| CommitBatch (staged : list VaultRecord)
| SaveMetadata (metadata : VaultMetadata).

Section WithPrimitives.
Context {P : Primitives}.

(** Modelled from the spec: the vault as the orchestrator sees it, the
    key in memory ([None] when Locked), the metadata store and the
    record store ([listAll()], keyed by record id). *)
Record Vault := mkVault {
  key      : option CryptoKey;
  metadata : option VaultMetadata;
  records  : list VaultRecord
}.

(** Modelled from the spec: re-encryption of one record, "re-encrypts
    every existing Record's plaintext under the new key". It fails when
    the old envelope does not decrypt, or when a failure is forced
    ([fault], the "forced failure mid-rekey" of the test plan). [encrypt]
    takes a string, so the plaintext reaches it as the text that
    [TextDecoder] makes of it. *)
Definition reencrypt
    (oldKey newKey : CryptoKey) (fault : bool) (r : VaultRecord) (e : Entropy)
    : option (VaultRecord * Entropy) :=
  if fault then None
  else
    match decrypt (envelope r) oldKey with
    | inl _ => None
    | inr plaintext =>
        let '(envelope', e') := encrypt (TextDecoder_decode plaintext) newKey e in
        Some ({| id := id r; category := category r; envelope := envelope';
                 lastModified := lastModified r |}, e')
    end.

(** Modelled from the spec: staging, record by record; [faults n] forces
    the failure of the record at position [n]. Nothing is written
    here. *)
Fixpoint stage
    (oldKey newKey : CryptoKey) (faults : nat -> bool) (n : nat)
    (rs : list VaultRecord) (e : Entropy)
    : option (list VaultRecord * Entropy) :=
  match rs with
  | [] => Some ([], e)
  | r :: rest =>
      match reencrypt oldKey newKey (faults n) r e with
      | None => None
      | Some (r', e1) =>
          match stage oldKey newKey faults (S n) rest e1 with
          | None => None
          | Some (staged, e2) => Some (r' :: staged, e2)
          end
      end
  end.

(** Modelled from the spec: [rekey(newPassword)], absent from the
    sources. "Generates a new salt, derives a new key, re-encrypts every
    existing Record's plaintext under the new key (... if re-encryption
    of any record fails, the whole rekey aborts and the vault remains on
    the old key/metadata ...), writes new VaultMetadata only after all
    records are successfully re-encrypted and staged." Outside Unlocked
    it "fails with VaultLocked and performs no I/O". *)
Definition rekey
    (newPassword : string) (faults : nat -> bool) (e : Entropy) (v : Vault)
    : (Error + unit) * Vault * list Write :=
  match key v, metadata v with
  | None, _ => (inl VaultLocked, v, [])
  | Some _, None => (inl NotFound, v, [])
  | Some oldKey, Some old =>
      let '(newSalt, e1) := getRandomValues 16 e in
      match derive newPassword newSalt (kdfParams old) with
      | inl err => (inl err, v, [])
      | inr newKey =>
          match stage oldKey newKey faults 0 (records v) e1 with
          | None => (inl RekeyAborted, v, [])
          | Some (staged, e2) =>
              let '(check, _) := encrypt KEY_CHECK_CONSTANT newKey e2 in
              let new := {| formatVersion := formatVersion old;
                            salt := newSalt;
                            kdfParams := kdfParams old;
                            keyCheckEnvelope := check |} in
              (inr tt,
               {| key := Some newKey; metadata := Some new; records := staged |},
               [CommitBatch staged; SaveMetadata new])
          end
      end
  end.

(** Modelled from the spec: [importBundle(bundle, password)]; the
    sources only declare [importVault(data)]. It "verifies the bundle's
    keyCheckEnvelope against the supplied password before replacing
    local metadata and records; fails with ImportAuthenticationFailed
    otherwise, leaving existing local vault untouched". *)
Definition importBundle
    (bundle : VaultBundle) (password : string) (v : Vault)
    : (Error + unit) * Vault * list Write :=
  let m := bundle_metadata bundle in
  match derive password (salt m) (kdfParams m) with
  | inl _ => (inl ImportAuthenticationFailed, v, [])
  | inr candidate =>
      if keyCheckPasses m candidate then
        (inr tt,
         {| key := key v; metadata := Some m; records := bundle_records bundle |},
         [SaveMetadata m; CommitBatch (bundle_records bundle)])
      else (inl ImportAuthenticationFailed, v, [])
  end.

(** A record is readable under a password when its envelope decrypts
    under the key derived from that password and the salt of the stored
    metadata. *)
Definition readable (password : string) (v : Vault) (r : VaultRecord)
    (plaintext : bytes) : Prop :=
  exists m, metadata v = Some m /\
    decrypt (envelope r) (deriveKey password (salt m)) = inr plaintext.

End WithPrimitives.

End VaultEngine.


(* --------------------------------------------------------------------- *)
(** ** Concrete inputs on which the definitions are run                   *)
(* --------------------------------------------------------------------- *)

Module Samples.

Import ServiceWorker.
Local Set Warnings "-inexact-float".


Definition userRequest : Request :=
  {| method := "GET";
     url := {| href := "https://vault.example/api/user";
               protocol := "https:"; pathname := "/api/user" |};
     destination := "" |}.

Definition vaultResponse : Response :=
  {| status := 200; statusText := "OK"; body := "[]";
     content_type := Some "application/json" |}.

(** Two active monthly subscriptions in US dollars, in one category. *)
Definition streaming : SubscriptionAnalytics.SubscriptionEntry :=
  {| SubscriptionAnalytics.name := "Streaming";
     SubscriptionAnalytics.category := Some "Entertainment";
     SubscriptionAnalytics.cost := 5.99%float;
     SubscriptionAnalytics.billingCycle := "monthly";
     SubscriptionAnalytics.currency := "USD";
     SubscriptionAnalytics.isActive := true |}.

Definition music : SubscriptionAnalytics.SubscriptionEntry :=
  {| SubscriptionAnalytics.name := "Music";
     SubscriptionAnalytics.category := Some "Entertainment";
     SubscriptionAnalytics.cost := 2.99%float;
     SubscriptionAnalytics.billingCycle := "monthly";
     SubscriptionAnalytics.currency := "USD";
     SubscriptionAnalytics.isActive := true |}.

(** A yearly plan in euros, an inactive one, and one without category. *)
Definition cloud : SubscriptionAnalytics.SubscriptionEntry :=
  {| SubscriptionAnalytics.name := "Cloud";
     SubscriptionAnalytics.category := Some "Productivity";
     SubscriptionAnalytics.cost := 120%float;
     SubscriptionAnalytics.billingCycle := "yearly";
     SubscriptionAnalytics.currency := "EUR";
     SubscriptionAnalytics.isActive := true |}.

Definition cancelled : SubscriptionAnalytics.SubscriptionEntry :=
  {| SubscriptionAnalytics.name := "Cancelled";
     SubscriptionAnalytics.category := Some "Entertainment";
     SubscriptionAnalytics.cost := 50%float;
     SubscriptionAnalytics.billingCycle := "monthly";
     SubscriptionAnalytics.currency := "USD";
     SubscriptionAnalytics.isActive := false |}.

Definition uncategorised : SubscriptionAnalytics.SubscriptionEntry :=
  {| SubscriptionAnalytics.name := "Gym";
     SubscriptionAnalytics.category := None;
     SubscriptionAnalytics.cost := 10%float;
     SubscriptionAnalytics.billingCycle := "weekly";
     SubscriptionAnalytics.currency := "GBP";
     SubscriptionAnalytics.isActive := true |}.


Definition categories : list string :=
  [ "Entertainment"; "Productivity"; "Other" ].

Definition portfolio : list SubscriptionAnalytics.SubscriptionEntry :=
  [ streaming; cloud; cancelled; music; uncategorised ].

(** An entropy tape, a salt, and KDF parameters with no iterations. *)
Definition entropy0 : WebCrypto.Entropy :=
  {| WebCrypto.tape := fun n => if Nat.even n then Byte.x5a else Byte.xa5;
     WebCrypto.position := 0 |}.

Definition salt0 : WebCrypto.bytes := List.repeat Byte.x01 16.

Definition noIterations : CryptoService.KdfParams :=
  {| CryptoService.iterations := 0;
     CryptoService.memoryCost := None;
     CryptoService.kdf_algorithm := "PBKDF2" |}.

(** A vault created with the password "Tr0ub4dor&3", locked, at time 0
    with no timer pending; then unlocked with that password. *)
Definition metadata0 : DataModel.VaultMetadata :=
  {| DataModel.formatVersion := 1;
     DataModel.salt := salt0;
     DataModel.kdfParams :=
       {| CryptoService.iterations := 100000;
          CryptoService.memoryCost := None;
          CryptoService.kdf_algorithm := "PBKDF2" |};
     DataModel.keyCheckEnvelope :=
       fst (@CryptoService.encrypt WebCrypto.toy DataModel.KEY_CHECK_CONSTANT
              (@CryptoService.deriveKey WebCrypto.toy "Tr0ub4dor&3" salt0)
              entropy0) |}.

Definition locked0 : @KeyManager.World WebCrypto.toy :=
  {| KeyManager.manager :=
       {| KeyManager.masterKey := None; KeyManager.autoLockTimer := None |};
     KeyManager.clock := 0;
     KeyManager.nextTimerId := 1;
     KeyManager.pendingTimers := [];
     KeyManager.vaultMetadata := Some metadata0;
     KeyManager.passwords := ∅;
     KeyManager.entropy := entropy0 |}.

Definition unlocked0 : @KeyManager.World WebCrypto.toy :=
  snd (fst (KeyManager.unlock "Tr0ub4dor&3" locked0)).

(** The password "pw" followed by the character U+0000. *)
Definition pw_nul : string :=
  String "p" (String "w" (String "000" EmptyString)).

Definition p1 : DataModel.PasswordEntry :=
  {| DataModel.entry_id := "p1"; DataModel.json := "{site:example.com}" |}.

(** The same vault as the rekey and import procedures see it, unlocked
    and holding two records, and a bundle exported from it. *)
Definition record (i : string) (plaintext : string) : DataModel.VaultRecord :=
  {| DataModel.id := i;
     DataModel.category := DataModel.Password;
     DataModel.envelope :=
       fst (@CryptoService.encrypt WebCrypto.toy plaintext
              (@CryptoService.deriveKey WebCrypto.toy "Tr0ub4dor&3" salt0)
              entropy0);
     DataModel.lastModified := 1 |}.

Definition vault0 : @VaultEngine.Vault WebCrypto.toy :=
  {| VaultEngine.key := Some (@CryptoService.deriveKey WebCrypto.toy "Tr0ub4dor&3" salt0);
     VaultEngine.metadata := Some metadata0;
     VaultEngine.records :=
       [ record "p1" "example.com"; record "p2" "example.org" ] |}.

Definition bundle0 : DataModel.VaultBundle :=
  {| DataModel.bundle_metadata := metadata0;
     DataModel.bundle_records := [ record "p3" "example.net" ] |}.

(** A forced failure on the second record. *)
Definition failSecond (n : nat) : bool := Nat.eqb n 1.

End Samples.

(* --------------------------------------------------------------------- *)
(** ** The service worker: installation, activation and the cache writes  *)
(* --------------------------------------------------------------------- *)

Module ServiceWorkerLifecycle.
Import ServiceWorker.

(** Assets to cache on install. The keys are the strings as the source
    writes them. The browser resolves each of them against the location
    of the worker, which the model does not do: an installed entry is what
    a lookup with the same string finds, as [caches.match('/offline.html')]
    does, and not what a request for the URL it resolves to finds. *)
Definition STATIC_ASSETS : list string :=
  [ "/"; "/manifest.json"; "/offline.html" ].

(** [caches.open(cacheName)]: the cache of that name, created after the
    existing ones when there is none. *)
Definition cachesOpen (cacheName : string) (caches : CacheStorage) : CacheStorage :=
  if existsb (fun c => String.eqb (fst c) cacheName) caches then caches
  else caches ++ [(cacheName, ∅)].

(** [caches.open(cacheName).then(cache => cache.put(key, r))]. *)
Fixpoint cachePut (caches : CacheStorage) (cacheName key : string) (r : Response)
    : CacheStorage :=
  match caches with
  | [] => [(cacheName, {[ key := r ]})]
  | (n, c) :: rest =>
      if String.eqb n cacheName then (n, <[key := r]> c) :: rest
      else (n, c) :: cachePut rest cacheName key r
  end.

(** The effect of one cache write on the cache storage. [Cache.put]
    rejects a response of status 206 and stores nothing; the cache has been
    opened by then. *)
Definition applyOp (caches : CacheStorage) (op : CacheOp) : CacheStorage :=
  match op with
  | CachePut cacheName key r =>
      if (status r =? 206)%N then cachesOpen cacheName caches
      else cachePut caches cacheName key r
  end.

Definition applyOps (caches : CacheStorage) (ops : list CacheOp) : CacheStorage :=
  fold_left applyOp ops caches.

(** [cache.addAll(assets)] fetches every asset; it stores all the
    responses, or, when a fetch rejects or a response is not ok or has
    status 206, it rejects and stores none. *)
Fixpoint fetchAll (fetchUrl : string -> option Response) (assets : list string)
    : option (list (string * Response)) :=
  match assets with
  | [] => Some []
  | asset :: rest =>
      match fetchUrl asset with
      | Some r =>
          if ok r && negb (status r =? 206)%N then
            match fetchAll fetchUrl rest with
            | Some entries => Some ((asset, r) :: entries)
            | None => None
            end
          else None
      | None => None
      end
  end.

(** The [install] listener: open the static cache, add all static assets,
    then [skipWaiting()]; the [catch] only logs. The result is the cache
    storage and whether [skipWaiting()] was called. *)
Definition install (fetchUrl : string -> option Response) (caches : CacheStorage)
    : CacheStorage * bool :=
  let opened := cachesOpen STATIC_CACHE caches in
  match fetchAll fetchUrl STATIC_ASSETS with
  | Some entries =>
      (fold_left (fun cs entry => cachePut cs STATIC_CACHE (fst entry) (snd entry))
                 entries opened,
       true)
  | None => (opened, false)
  end.

(** The [activate] listener: delete every cache whose name is not one of
    the three current names. *)
Definition isCurrentCache (cacheName : string) : bool :=
  negb (negb (String.eqb cacheName STATIC_CACHE) &&
        negb (String.eqb cacheName DYNAMIC_CACHE) &&
        negb (String.eqb cacheName CACHE_NAME)).

Definition activate (caches : CacheStorage) : CacheStorage :=
  List.filter (fun c => isCurrentCache (fst c)) caches.

End ServiceWorkerLifecycle.

(* --------------------------------------------------------------------- *)
(** ** Histories of calls on the key manager                              *)
(* --------------------------------------------------------------------- *)

Module KeyManagerHistory.
Import WebCrypto CryptoService DataModel KeyManager.

Section WithPrimitives.
Context {P : Primitives}.

(** What can happen to a key manager: a call of [unlock], of [lock] or of
    [savePassword], or time passing. *)
Inductive Action :=
| CallUnlock (password : string)
| CallLock
| CallSave (entry : PasswordEntry)
| Wait (dt : N).

Definition perform (w : World) (a : Action) : World :=
  match a with
  | CallUnlock password => snd (fst (unlock password w))
  | CallLock => fst (lock w)
  | CallSave entry => snd (savePassword entry w)
  | Wait dt => fst (advance dt w)
  end.

Definition history (actions : list Action) (w : World) : World :=
  fold_left perform actions w.

Definition isCallUnlock (a : Action) : bool :=
  match a with
  | CallUnlock _ => true
  | _ => false
  end.

(** The time that passes during a list of actions. *)
Definition waited (actions : list Action) : N :=
  fold_right (fun a total =>
                match a with
                | Wait dt => (dt + total)%N
                | _ => total
                end) 0%N actions.

(** While the key is held, the timer the manager has a handle on is
    pending and due later than now and no later than [limit]. *)
Definition timerDueBy (limit : N) (w : World) : Prop :=
  isUnlocked w = true ->
  exists id due,
    autoLockTimer (manager w) = Some id /\ In (id, due) (pendingTimers w) /\
    (clock w < due)%N /\ (due <= limit)%N.

End WithPrimitives.

End KeyManagerHistory.

(* --------------------------------------------------------------------- *)
(** ** [ARCHITECTURE.md], "Memory Management": class [SecureMemoryManager] *)
(* --------------------------------------------------------------------- *)

Module SecureMemoryManager.

(** A value of type [any], as far as [clear()] tells values apart: a
    string, or anything else (named by a tag). *)
Inductive Value :=
| VString (s : string)
| VOther (tag : N).

(** [sensitiveData: Map<string, any>]: the entries in insertion order,
    with at most one entry per key when built by [set]. *)
Definition SensitiveData : Type := list (string * Value).

(** [Map.prototype.set]: an existing key keeps its place and gets the new
    value, a new key goes to the end. *)
Fixpoint mapSet (m : SensitiveData) (key : string) (data : Value) : SensitiveData :=
  match m with
  | [] => [(key, data)]
  | (k, v) :: rest =>
      if String.eqb k key then (k, data) :: rest
      else (k, v) :: mapSet rest key data
  end.

(** [Map.prototype.get]; [None] is [undefined]. *)
Fixpoint mapGet (m : SensitiveData) (key : string) : option Value :=
  match m with
  | [] => None
  | (k, v) :: rest => if String.eqb k key then Some v else mapGet rest key
  end.

Definition store (key : string) (data : Value) (m : SensitiveData) : SensitiveData :=
  mapSet m key data.

Definition retrieve (key : string) (m : SensitiveData) : option Value :=
  mapGet m key.

(** [clear()]: the loop visits the entries in insertion order. For a
    string value it runs [value[i] = '\0'] for every index; a class body is
    strict code and the characters of a string are read-only, so the first
    such assignment throws a [TypeError] and the loop ends there, before
    the entry is deleted. An empty string has no index and is deleted like
    any other value. The result is the map that is left and whether the
    method returned ([true]) or threw ([false]). *)
Fixpoint clear (m : SensitiveData) : SensitiveData * bool :=
  match m with
  | [] => ([], true)
  | (key, value) :: rest =>
      match value with
      | VString s =>
          if (0 <? String.length s)%nat then ((key, value) :: rest, false)
          else clear rest
      | VOther _ => clear rest
      end
  end.

(** The values [clear()] cannot overwrite. *)
Definition isNonEmptyString (value : Value) : bool :=
  match value with
  | VString s => (0 <? String.length s)%nat
  | VOther _ => false
  end.

End SecureMemoryManager.

(* --------------------------------------------------------------------- *)
(** ** [ARCHITECTURE.md], "Database Performance": [saveBatch]             *)
(* --------------------------------------------------------------------- *)

Module OptimizedStorage.

Section WithItems.
(** The items of an object store and the key [store.put(item)] files an
    item under (the key path of the store, which the sources do not
    give). *)
Context {T : Type} (keyOf : T -> string).

Definition chunkSize : nat := 100.

(** [items.slice(i, j)] for [i <= j]. *)
Definition slice (i j : nat) (items : list T) : list T :=
  firstn (j - i) (skipn i items).

(** The chunks the loop [for (let i = 0; i < items.length; i += chunkSize)]
    takes, from index [i] on. The index grows in every round, so
    [items.length] rounds are enough. *)
Fixpoint chunksFrom (fuel i : nat) (items : list T) : list (list T) :=
  match fuel with
  | O => []
  | S fuel' =>
      if (i <? length items)%nat then
        slice i (i + chunkSize) items :: chunksFrom fuel' (i + chunkSize) items
      else []
  end.

Definition chunks (items : list T) : list (list T) :=
  chunksFrom (length items) 0 items.

(** [store.put(item)]. *)
Definition put (objectStore : gmap string T) (item : T) : gmap string T :=
  <[keyOf item := item]> objectStore.

(** [saveBatch(storeName, items)]: every chunk is put, item by item, before
    the next chunk is taken. *)
Definition saveBatch (items : list T) (objectStore : gmap string T)
    : gmap string T :=
  fold_left (fun st chunk => fold_left put chunk st) (chunks items) objectStore.

End WithItems.

End OptimizedStorage.

(* --------------------------------------------------------------------- *)
(** ** More concrete inputs                                               *)
(* --------------------------------------------------------------------- *)

Module MoreSamples.
Import ServiceWorker Samples.

(** A page request, a script request, and a network that is down. *)
Definition pageRequest : Request :=
  {| method := "GET";
     url := {| href := "https://vault.example/passwords";
               protocol := "https:"; pathname := "/passwords" |};
     destination := "document" |}.

Definition scriptRequest : Request :=
  {| method := "GET";
     url := {| href := "https://vault.example/assets/index.js";
               protocol := "https:"; pathname := "/assets/index.js" |};
     destination := "script" |}.

Definition offline : Network := fun _ => None.

Definition online : Network := fun _ => Some vaultResponse.

(** The sample vault ten minutes after it was unlocked. *)
Definition tenMinutesIn : @KeyManager.World WebCrypto.toy :=
  KeyManager.run [KeyManager.Idle 600000] unlocked0.

(** A memory manager holding a token, a counter and an empty note. *)
Definition secrets : SecureMemoryManager.SensitiveData :=
  [ ("note", SecureMemoryManager.VString "");
    ("attempts", SecureMemoryManager.VOther 3);
    ("token", SecureMemoryManager.VString "s3cr3t");
    ("pin", SecureMemoryManager.VString "0000") ].

End MoreSamples.
(* ===================================================================== *)
(** * Part II. Theorems                                                  *)
(* ===================================================================== *)

(* --------------------------------------------------------------------- *)
(** ** The service worker                                                 *)
(* --------------------------------------------------------------------- *)

Section ServiceWorkerFacts.
Import ServiceWorker Samples.

Lemma some_true_iff {A} (p : A -> bool) (l : list A) :
  some p l = true <-> exists x, In x l /\ p x = true.
Proof. unfold some. apply existsb_exists. Qed.

Lemma networkOnlyStrategy_no_put fetch request :
  snd (networkOnlyStrategy fetch request) = [].
Proof. unfold networkOnlyStrategy. now destruct (fetch request). Qed.

(** The second line of defence: even when the network-first strategy is
    handed a sensitive request, it does not cache the response. *)
Lemma networkFirstStrategy_sensitive_no_put fetch caches request :
  shouldUseNetworkOnly (url request) = true ->
  snd (networkFirstStrategy fetch caches request) = [].
Proof.
  intros Hs. unfold networkFirstStrategy. rewrite Hs. simpl.
  destruct (fetch request) as [r|].
  - now destruct (ok r).
  - destruct (caches_match caches (href (url request))); [reflexivity|].
    now destruct (String.eqb (destination request) "document").
Qed.



(** A request outside the sensitive prefixes is cached by the same
    handler: the absence of cache writes above is due to the prefix
    test. *)
Example other_api_request_is_cached :
  snd (handleFetchRequest (fun _ => Some vaultResponse) []
         userRequest)
  = [CachePut DYNAMIC_CACHE "https://vault.example/api/user" vaultResponse].
Proof. reflexivity. Qed.

End ServiceWorkerFacts.

(* --------------------------------------------------------------------- *)
(** ** Spending analytics                                                 *)
(* --------------------------------------------------------------------- *)

Section AnalyticsFacts.
Import SubscriptionAnalytics Samples.
Local Set Warnings "-inexact-float".

Lemma filter_filter {A} (p q : A -> bool) (l : list A) :
  List.filter q (List.filter p l) = List.filter (fun x => p x && q x) l.
Proof.
  induction l as [|x l IH]; simpl; [reflexivity|].
  destruct (p x); simpl; [destruct (q x); simpl|]; now rewrite IH.
Qed.

(** Every category starts from zero spending. *)
Lemma initCategories_lookup cats c d :
  initCategories cats !! c = Some d -> d = zeroTotals.
Proof.
  unfold initCategories.
  assert (G : forall (m : gmap string CategoryTotals),
             (forall k v, m !! k = Some v -> v = zeroTotals) ->
             fold_left (fun categoryData category =>
                          <[category := zeroTotals]> categoryData) cats m !! c
               = Some d -> d = zeroTotals).
  { induction cats as [|k cats IH]; simpl; intros m Hm Hd.
    - eapply Hm; eassumption.
    - apply (IH (<[k := zeroTotals]> m)); [|exact Hd].
      intros k' v. rewrite lookup_insert. case_decide; [congruence|apply Hm]. }
  apply G. intros k v. rewrite lookup_empty. discriminate.
Qed.

Lemma initCategories_is_Some cats c :
  In c cats <-> is_Some (initCategories cats !! c).
Proof.
  unfold initCategories.
  assert (G : forall (m : gmap string CategoryTotals),
             is_Some (fold_left (fun categoryData category =>
                          <[category := zeroTotals]> categoryData) cats m !! c)
             <-> In c cats \/ is_Some (m !! c)).
  { induction cats as [|k cats IH]; simpl; intros m.
    - tauto.
    - rewrite IH, lookup_insert. case_decide; subst.
      + split; [left; now left | intros _; right; eauto].
      + split; [intros [?|?]; auto | intros [[?|?]|?]; auto; congruence]. }
  rewrite G, lookup_empty. split; [auto | intros [?|[? ?]]; [auto|discriminate]].
Qed.

(** The loop invariant of [activeSubscriptions.forEach]: a category that
    is not initialised stays absent, and the totals of an initialised one
    grow by the amounts of its subscriptions, added in list order. *)
Lemma forEach_accumulate settings (l : list SubscriptionEntry) :
  forall acc data,
    forEach (accumulate settings) l acc = Some data ->
    forall c,
      match acc !! c with
      | None => data !! c = None
      | Some d0 =>
          exists d, data !! c = Some d /\
            monthly d =
              fold_left PrimFloat.add
                (List.map (monthlyInBase settings)
                   (List.filter (fun sub => String.eqb (categoryOf sub) c) l))
                (monthly d0) /\
            yearly d =
              fold_left PrimFloat.add
                (List.map (fun sub => PrimFloat.mul (monthlyInBase settings sub) 12)
                   (List.filter (fun sub => String.eqb (categoryOf sub) c) l))
                (yearly d0)
      end.
Proof.
  induction l as [|x l IH]; simpl; intros acc data Hrun c.
  - injection Hrun as <-. destruct (acc !! c); eauto.
  - destruct (accumulate settings acc x) as [acc'|] eqn:Hacc; [|discriminate].
    specialize (IH acc' data Hrun c).
    unfold accumulate in Hacc.
    destruct (acc !! categoryOf x) as [dx|] eqn:Hx; [|discriminate].
    injection Hacc as <-.
    rewrite lookup_insert in IH.
    destruct (String.eqb_spec (categoryOf x) c) as [Heq|Hne].
    + subst c. rewrite decide_True in IH by reflexivity. rewrite Hx. simpl. exact IH.
    + rewrite decide_False in IH by exact Hne. exact IH.
Qed.

(** [categoryAnalytics] returns (does not throw) exactly when the
    category of every active subscription is one of
    [SUBSCRIPTION_CATEGORIES]. *)
Lemma forEach_accumulate_returns settings (l : list SubscriptionEntry) :
  forall acc,
    (forall sub, In sub l -> is_Some (acc !! categoryOf sub)) ->
    is_Some (forEach (accumulate settings) l acc).
Proof.
  induction l as [|x l IH]; simpl; intros acc Hin; [eauto|].
  destruct (Hin x (or_introl eq_refl)) as [dx Hx].
  unfold accumulate at 1. rewrite Hx. apply IH.
  intros sub Hsub. rewrite lookup_insert. case_decide; [eauto|].
  apply Hin. now right.
Qed.

Lemma categoryAnalytics_returns cats settings subs :
  (forall sub, In sub subs -> isActive sub = true -> In (categoryOf sub) cats) ->
  is_Some (categoryAnalytics cats settings subs).
Proof.
  intros H. unfold categoryAnalytics. apply forEach_accumulate_returns.
  intros sub Hsub. apply filter_In in Hsub as [Hsub Hact].
  apply initCategories_is_Some. now apply H.
Qed.











(** The other branches of the normalisation on the sample portfolio: a
    yearly plan of 120 euros is 120/12/0.85 dollars a month, and a weekly
    10 pounds without category is counted under 'Other'. *)
Example portfolio_productivity :
  (categoryAnalytics categories DEFAULT_CURRENCY_SETTINGS portfolio
     ≫= fun data => monthly <$> data !! "Productivity")
  = Some (120 / 12 / 0.85 * 1)%float.
Proof. vm_compute. reflexivity. Qed.

Example portfolio_other :
  (categoryAnalytics categories DEFAULT_CURRENCY_SETTINGS portfolio
     ≫= fun data => monthly <$> data !! "Other")
  = Some (10 * 4.33 / 0.73 * 1)%float.
Proof. vm_compute. reflexivity. Qed.

(** A category outside [SUBSCRIPTION_CATEGORIES] makes the loop throw. *)
Example unknown_category_throws :
  categoryAnalytics ["Entertainment"] DEFAULT_CURRENCY_SETTINGS portfolio = None.
Proof. vm_compute. reflexivity. Qed.

End AnalyticsFacts.

(* --------------------------------------------------------------------- *)
(** ** Key derivation and the cipher                                      *)
(* --------------------------------------------------------------------- *)

Section CryptoFacts.
Import WebCrypto CryptoService Samples.

Lemma toy_untag_tag key plaintext :
  toy_untag (toy_tag key ++ plaintext) = Some (key, plaintext).
Proof. induction key as [|b key IH]; simpl; [reflexivity | now rewrite IH]. Qed.

Lemma bytes_eqb_eq a b : bytes_eqb a b = true <-> a = b.
Proof.
  revert b. induction a as [|x a IH]; intros [|y b]; simpl;
    try (split; [discriminate|congruence]); [tauto|].
  rewrite andb_true_iff, IH. split.
  - intros [Hxy ->]. now rewrite (Byte.byte_dec_bl _ _ Hxy).
  - intros [= -> ->]. split; [now apply Byte.byte_dec_lb | reflexivity].
Qed.

(** The small model of the primitives is functionally correct. *)
Lemma toy_correct : Correct toy.
Proof.
  constructor. intros key iv plaintext. simpl. rewrite toy_untag_tag.
  now rewrite (proj2 (bytes_eqb_eq key key) eq_refl).
Qed.



(** An ASCII text is well-formed UTF-8: the decoder returns it as it
    is. *)
Lemma utf8Decode_ascii (input : bytes) :
  Forall (fun b => (Byte.to_N b < 0x80)%N) input ->
  wellFormed input.
Proof.
  unfold wellFormed. induction 1 as [|b rest Hb _ IH]; [reflexivity|].
  change (utf8Decode initialDecoder (b :: rest))
    with (let '(out, st') := firstByte b in out ++ utf8Decode st' rest).
  unfold firstByte.
  destruct (N.leb_spec (Byte.to_N b) 0x7F) as [_|?]; [|lia].
  cbv beta iota zeta. now rewrite IH.
Qed.

Lemma TextDecoder_decode_ascii (input : bytes) :
  Forall (fun b => (Byte.to_N b < 0x80)%N) input ->
  TextEncoder_encode (TextDecoder_decode input) = input.
Proof.
  intros Hascii. unfold TextEncoder_encode, TextDecoder_decode.
  rewrite list_byte_of_string_of_list_byte.
  assert (Hbom : stripBOM input = input).
  { destruct Hascii as [|b1 rest Hb1 Hrest]; [reflexivity|].
    destruct rest as [|b2 [|b3 rest]]; try reflexivity.
    simpl. destruct (N.eqb_spec (Byte.to_N b1) 0xEF) as [E|_]; [lia|reflexivity]. }
  rewrite Hbom. now apply utf8Decode_ascii.
Qed.



(** Round trip for a known key. *)
Lemma decrypt_encrypt {P : Primitives} {C : Correct P} data key e :
  decrypt (fst (encrypt data key e)) key = inr (TextEncoder_encode data).
Proof.
  unfold decrypt, encrypt. simpl.
  now rewrite aes_gcm_decrypt_encrypt.
Qed.

(** [decrypt] fails with [AuthenticationFailed] exactly when the envelope
    is well-formed and the primitive rejects its tag. *)
Lemma decrypt_AuthenticationFailed_iff {P : Primitives} envelope key :
  decrypt envelope key = inl AuthenticationFailed <->
  algorithm envelope = "AES-GCM" /\ length (iv envelope) = 12%nat /\
  aes_gcm_decrypt key (iv envelope) (data envelope) = None.
Proof.
  unfold decrypt.
  destruct (String.eqb_spec (algorithm envelope) "AES-GCM") as [Ha|Ha]; simpl.
  - destruct (Nat.eqb_spec (length (iv envelope)) 12) as [Hl|Hl]; simpl.
    + destruct (aes_gcm_decrypt key (iv envelope) (data envelope)).
      * split; [discriminate | intros (_ & _ & ?); discriminate].
      * tauto.
    + split; [discriminate | tauto].
  - split; [discriminate | tauto].
Qed.


(** C1, as stated, fails for a payload that is not well-formed UTF-8.
    [encrypt] takes a string. The single byte FF is the encoding of no
    text, and the text that [TextDecoder] makes of it is U+FFFD, whose
    round trip returns the three bytes EF BF BD. *)
Lemma ill_formed_payload_does_not_round_trip :
  let k := @deriveKey toy "Tr0ub4dor&3" salt0 in
  (forall text : string,
      wellFormed (TextEncoder_encode text) ->
      TextEncoder_encode text <> [Byte.xff]) /\
  TextEncoder_encode (TextDecoder_decode [Byte.xff]) = [Byte.xef; Byte.xbf; Byte.xbd] /\
  @decrypt toy (fst (@encrypt toy (TextDecoder_decode [Byte.xff]) k entropy0)) k
    = inr [Byte.xef; Byte.xbf; Byte.xbd] /\
  @decrypt toy (fst (@encrypt toy (TextDecoder_decode [Byte.xff]) k entropy0)) k
    <> inr [Byte.xff].
Proof.
  split; [|split; [reflexivity|split; [reflexivity|discriminate]]].
  intros text Hwf Henc. unfold wellFormed in Hwf. rewrite Henc in Hwf.
  vm_compute in Hwf. discriminate.
Qed.

(** C1 (as amended). Round trip: whatever the password, the salt and the
    KDF parameters, key derivation yields a key [k], and decrypting under
    [k] the envelope that [encrypt] produced under [k] for a text returns
    exactly the bytes that were encrypted, the UTF-8 encoding of the text;
    so it returns exactly the payload for every byte payload that is the
    encoding of a text. This holds for every state of the entropy source.
    AES-GCM is assumed functionally correct. *)
Theorem decrypt_encrypt_roundtrip
    {P : Primitives} (C : Correct P)
    (payload : bytes) (text password : string) (salt : bytes)
    (params : KdfParams) (e : Entropy) :
  exists k,
    derive password salt params = inr k /\
    decrypt (fst (encrypt text k e)) k = inr (TextEncoder_encode text) /\
    (TextEncoder_encode text = payload ->
     decrypt (fst (encrypt text k e)) k = inr payload) /\
    (TextEncoder_encode (TextDecoder_decode payload) = payload ->
     decrypt (fst (encrypt (TextDecoder_decode payload) k e)) k = inr payload).
Proof.
  exists (deriveKey password salt). split; [reflexivity|].
  rewrite !decrypt_encrypt. split; [reflexivity|].
  split; intros ->; reflexivity.
Qed.

Lemma decrypt_encrypt_roundtrip_witness :
  exists k,
    @derive toy "Tr0ub4dor&3" salt0 noIterations = inr k /\
    @decrypt toy (fst (@encrypt toy "p1" k entropy0)) k
      = inr (TextEncoder_encode "p1") /\
    (TextEncoder_encode "p1" = [Byte.x70; Byte.x31] ->
     @decrypt toy (fst (@encrypt toy "p1" k entropy0)) k
       = inr [Byte.x70; Byte.x31]) /\
    (TextEncoder_encode (TextDecoder_decode [Byte.x70; Byte.x31])
       = [Byte.x70; Byte.x31] ->
     @decrypt toy
       (fst (@encrypt toy (TextDecoder_decode [Byte.x70; Byte.x31]) k entropy0)) k
       = inr [Byte.x70; Byte.x31]).
Proof.
  exact (@decrypt_encrypt_roundtrip toy toy_correct [Byte.x70; Byte.x31]
           "p1" "Tr0ub4dor&3" salt0 noIterations entropy0).
Defined.

(** The two premises about the payload hold in this instance. *)
Example sample_payload_is_a_text :
  TextEncoder_encode "p1" = [Byte.x70; Byte.x31] /\
  TextEncoder_encode (TextDecoder_decode [Byte.x70; Byte.x31])
    = [Byte.x70; Byte.x31].
Proof. split; reflexivity. Qed.

(** The decoder on bytes that are not a text: a byte order mark is
    dropped, a code point cut short and a surrogate are replaced. *)
Example TextDecoder_decode_samples :
  TextEncoder_encode (TextDecoder_decode [Byte.xef; Byte.xbb; Byte.xbf; Byte.x70])
    = [Byte.x70] /\
  TextEncoder_encode (TextDecoder_decode [Byte.xe2; Byte.x82; Byte.x70])
    = [Byte.xef; Byte.xbf; Byte.xbd; Byte.x70] /\
  TextEncoder_encode (TextDecoder_decode [Byte.xe2; Byte.x82; Byte.xac])
    = [Byte.xe2; Byte.x82; Byte.xac] /\
  TextEncoder_encode (TextDecoder_decode [Byte.xed; Byte.xa0; Byte.x80])
    = [Byte.xef; Byte.xbf; Byte.xbd; Byte.xef; Byte.xbf; Byte.xbd;
       Byte.xef; Byte.xbf; Byte.xbd] /\
  TextEncoder_encode (TextDecoder_decode [Byte.xc0; Byte.x80])
    = [Byte.xef; Byte.xbf; Byte.xbd; Byte.xef; Byte.xbf; Byte.xbd].
Proof. repeat split. Qed.

(** In the small model a tampered envelope and an envelope with a
    foreign algorithm label are rejected as the specification words it. *)
Example tampered_envelope_rejected :
  @decrypt toy
    {| data := [Byte.x00; Byte.x70]; iv := fst (getRandomValues 12 entropy0);
       algorithm := "AES-GCM" |}
    (@deriveKey toy "Tr0ub4dor&3" salt0)
  = inl AuthenticationFailed.
Proof. reflexivity. Qed.

Example foreign_algorithm_rejected :
  @decrypt toy
    {| data := []; iv := fst (getRandomValues 12 entropy0);
       algorithm := "AES-CBC" |}
    (@deriveKey toy "Tr0ub4dor&3" salt0)
  = inl InvalidParams.
Proof. reflexivity. Qed.




(** The premises of the last two parts hold in this instance, and a
    password with another key block is rejected in the small model. *)
Example sample_passwords_share_key_block :
  (length (TextEncoder_encode "pw") < HMAC_SHA256_BLOCK)%nat /\
  TextEncoder_encode pw_nul = TextEncoder_encode "pw" ++ [Byte.x00] /\
  hmacKeyBlock (TextEncoder_encode "pw") = hmacKeyBlock (TextEncoder_encode pw_nul) /\
  @decrypt toy
    (fst (@encrypt toy "example.com" (@deriveKey toy "Tr0ub4dor&3" salt0) entropy0))
    (@deriveKey toy "wrong" salt0)
    = inl AuthenticationFailed.
Proof. split; [vm_compute; lia|]. repeat split. Qed.

(** C8, as stated, fails: a caller whose KDF parameters ask for zero
    iterations, below any positive floor, still gets a key. *)
Lemma derive_accepts_zero_iterations :
  (iterations noIterations < 1)%N /\
  @derive toy "Tr0ub4dor&3" salt0 noIterations <> inl InvalidParams /\
  @derive toy "Tr0ub4dor&3" salt0 noIterations
    = inr (@deriveKey toy "Tr0ub4dor&3" salt0).
Proof. split; [reflexivity|]. split; [discriminate|reflexivity]. Qed.

(** C8 (as amended). Key derivation takes a password and a salt and no
    parameters: every call derives with PBKDF2 and SHA-256 at the fixed
    count of 100000 iterations for a 256-bit key, whatever parameters the
    caller holds, and no call fails with [InvalidParams]. *)
Theorem derive_fixed_iterations
    {P : Primitives} (password : string) (salt : bytes) (params : KdfParams) :
  derive password salt params
    = inr (pbkdf2_deriveKey (TextEncoder_encode password) salt
             100000 "SHA-256" 256) /\
  derive password salt params = inr (deriveKey password salt) /\
  derive password salt params <> inl InvalidParams.
Proof. unfold derive, deriveKey. repeat split; discriminate. Qed.

End CryptoFacts.

(* --------------------------------------------------------------------- *)
(** ** The key manager                                                    *)
(* --------------------------------------------------------------------- *)

Section KeyManagerFacts.
Import WebCrypto CryptoService DataModel KeyManager Samples.

(** [lock()] on a Locked key manager changes nothing; it only calls
    [clearSensitiveState()] again. *)
Lemma lock_locked {P : Primitives} (w : World) :
  masterKey (manager w) = None ->
  autoLockTimer (manager w) = None ->
  lock w = (w, [ClearSensitiveState]).
Proof.
  destruct w as [[mk tm] ? ? ? ? ? ?]. simpl. intros -> ->. reflexivity.
Qed.

(** Whatever the state, [lock()] leaves no key and no timer handle. *)
Lemma lock_clears {P : Primitives} (w : World) :
  masterKey (manager (fst (lock w))) = None /\
  autoLockTimer (manager (fst (lock w))) = None.
Proof.
  unfold lock. simpl. destruct (autoLockTimer (manager w)); simpl; auto.
Qed.

Lemma clearTimeout_not_pending {P : Primitives} id deadline (w : World) :
  ~ In (id, deadline) (pendingTimers (clearTimeout id w)).
Proof.
  unfold clearTimeout. simpl. intros Hin.
  apply filter_In in Hin as [_ Hne]. simpl in Hne.
  now rewrite Pos.eqb_refl in Hne.
Qed.

(** C5. From the Locked state, when the key derived from the password
    does not pass the check against the key check envelope, [unlock]
    resolves to [false] (its signal for invalid credentials), the key
    manager is Locked afterwards, and the candidate key, which the method
    had stored before verifying it, is no longer held: the whole state is
    the state before the call, and no timer was armed. *)
Theorem unlock_wrong_password_stays_locked
    {P : Primitives} (password : string) (w : World) (metadata : VaultMetadata) :
  masterKey (manager w) = None ->
  autoLockTimer (manager w) = None ->
  vaultMetadata w = Some metadata ->
  keyCheckPasses metadata (deriveKey password (salt metadata)) = false ->
  unlock password w = (false, w, [ClearSensitiveState]) /\
  isUnlocked (snd (fst (unlock password w))) = false /\
  masterKey (manager (snd (fst (unlock password w)))) = None.
Proof.
  intros Hk Ht Hm Hcheck.
  assert (Hu : unlock password w = (false, w, [ClearSensitiveState])).
  { unfold unlock. rewrite Hm. unfold verifyKey. simpl. rewrite Hcheck.
    destruct w as [[mk tm] ? ? ? ? ? ?]. simpl in *. subst mk tm.
    reflexivity. }
  rewrite Hu. simpl. unfold isUnlocked. rewrite Hk. auto.
Qed.

Lemma unlock_wrong_password_stays_locked_witness :
  unlock "wrong" locked0 = (false, locked0, [ClearSensitiveState]) /\
  isUnlocked (snd (fst (unlock "wrong" locked0))) = false /\
  masterKey (manager (snd (fst (unlock "wrong" locked0)))) = None.
Proof.
  apply (@unlock_wrong_password_stays_locked toy "wrong" locked0 metadata0);
    reflexivity.
Defined.

(** The scenario of the specification: the right password unlocks and
    arms one timer of 15 minutes. *)
Example unlock_right_password :
  fst (fst (unlock "Tr0ub4dor&3" locked0)) = true /\
  snd (unlock "Tr0ub4dor&3" locked0) = [SetTimeout 1 900000] /\
  isUnlocked unlocked0 = true /\
  pendingTimers unlocked0 = [(1%positive, 900000%N)].
Proof. repeat split. Qed.

(** C6, as stated, fails on the event: locking the unlocked sample vault
    cancels its timer and calls [clearSensitiveState()], and emits no
    Locked event. *)
Lemma lock_emits_no_event :
  isUnlocked unlocked0 = true /\
  snd (lock unlocked0) = [ClearTimeout 1; ClearSensitiveState] /\
  ~ In (EmitEvent "Locked") (snd (lock unlocked0)).
Proof.
  split; [reflexivity|]. split; [reflexivity|].
  simpl. intros [H|[H|[]]]; discriminate.
Qed.

(** C6 (as amended). [lock()] on an Unlocked key manager is one
    synchronous step that discards the key in memory, cancels the
    auto-lock timer and forgets its handle, which leaves the manager
    Locked, and calls [clearSensitiveState()]; these two calls are all it
    does, no event is emitted. [lock()] on a Locked manager leaves the
    state as it is. *)
Theorem lock_discards_key_and_timer
    {P : Primitives} (w : World) (k : CryptoKey) (t : positive) :
  masterKey (manager w) = Some k ->
  autoLockTimer (manager w) = Some t ->
  let w' := fst (lock w) in
  masterKey (manager w') = None /\
  autoLockTimer (manager w') = None /\
  isUnlocked w' = false /\
  (forall deadline, ~ In (t, deadline) (pendingTimers w')) /\
  snd (lock w) = [ClearTimeout t; ClearSensitiveState] /\
  (forall name, ~ In (EmitEvent name) (snd (lock w))) /\
  fst (lock w') = w' /\
  (forall w0 : World,
      masterKey (manager w0) = None -> autoLockTimer (manager w0) = None ->
      fst (lock w0) = w0).
Proof.
  intros Hk Ht w'.
  destruct (lock_clears w) as [Hk' Ht']. fold w' in Hk', Ht'.
  assert (Hfx : snd (lock w) = [ClearTimeout t; ClearSensitiveState]).
  { unfold lock. simpl. rewrite Ht. reflexivity. }
  repeat split.
  - exact Hk'.
  - exact Ht'.
  - unfold isUnlocked. now rewrite Hk'.
  - intros deadline. subst w'. unfold lock. simpl. rewrite Ht. simpl.
    apply (clearTimeout_not_pending t deadline
             (setManager {| masterKey := None; autoLockTimer := Some t |} w)).
  - exact Hfx.
  - intros name. rewrite Hfx. simpl. intros [H|[H|[]]]; discriminate.
  - now rewrite (lock_locked w' Hk' Ht').
  - intros w0 H1 H2. now rewrite (lock_locked w0 H1 H2).
Qed.

Lemma lock_discards_key_and_timer_witness :
  let w' := fst (lock unlocked0) in
  masterKey (manager w') = None /\
  autoLockTimer (manager w') = None /\
  isUnlocked w' = false /\
  (forall deadline, ~ In (1%positive, deadline) (pendingTimers w')) /\
  snd (lock unlocked0) = [ClearTimeout 1; ClearSensitiveState] /\
  (forall name, ~ In (EmitEvent name) (snd (lock unlocked0))) /\
  fst (lock w') = w' /\
  (forall w0 : @World toy,
      masterKey (manager w0) = None -> autoLockTimer (manager w0) = None ->
      fst (lock w0) = w0).
Proof.
  apply (@lock_discards_key_and_timer toy unlocked0
           (@deriveKey toy "Tr0ub4dor&3" salt0) 1%positive); reflexivity.
Defined.


Lemma savePassword_frame {P : Primitives} password (w : World) :
  let w' := snd (savePassword password w) in
  manager w' = manager w /\ clock w' = clock w /\
  pendingTimers w' = pendingTimers w /\ nextTimerId w' = nextTimerId w.
Proof.
  unfold savePassword. destruct (masterKey (manager w)); simpl; auto.
Qed.

Lemma lock_frame {P : Primitives} (w : World) :
  clock (fst (lock w)) = clock w /\
  passwords (fst (lock w)) = passwords w /\
  vaultMetadata (fst (lock w)) = vaultMetadata w.
Proof. unfold lock. destruct (autoLockTimer (manager w)); simpl; auto. Qed.

(** The timer loop keeps the clock, and either fires nothing, because no
    pending timer is due or none is pending, or leaves the manager
    Locked. *)
Lemma runTimers_cases {P : Primitives} (t : N) (fuel : nat) :
  forall w : World,
    clock (fst (runTimers fuel t w)) = clock w /\
    ((fst (runTimers fuel t w) = w /\
      (fuel = 0%nat \/
       List.find (fun timer => (snd timer <=? t)%N) (pendingTimers w) = None)) \/
     (masterKey (manager (fst (runTimers fuel t w))) = None /\
      autoLockTimer (manager (fst (runTimers fuel t w))) = None)).
Proof.
  induction fuel as [|fuel IH]; intros w; simpl; [auto|].
  destruct (List.find _ (pendingTimers w)) as [[id due]|] eqn:Hfind; [|auto].
  pose proof (lock_clears (clearTimeout id w)) as [Hk Ht].
  pose proof (lock_frame (clearTimeout id w)) as [Hc _].
  destruct (lock (clearTimeout id w)) as [w1 fx1]. simpl in Hk, Ht, Hc.
  destruct (IH w1) as [Hclock Hcases].
  destruct (runTimers fuel t w1) as [w2 fx2]. simpl in *.
  split; [now rewrite Hclock, Hc|]. right.
  destruct Hcases as [[-> _]|[? ?]]; auto.
Qed.

Lemma advance_clock {P : Primitives} dt (w : World) :
  clock (fst (advance dt w)) = (clock w + dt)%N.
Proof. unfold advance. now rewrite (proj1 (runTimers_cases _ _ _)). Qed.

(** No timer is due exactly when the event loop finds none to run. *)
Lemma noneDue_find (timers : list (positive * N)) (t : N) :
  noneDue timers t = true <->
  List.find (fun timer => (snd timer <=? t)%N) timers = None.
Proof.
  unfold noneDue. induction timers as [|[id due] timers IH]; simpl; [tauto|].
  destruct (N.leb_spec due t) as [Hle|Hgt].
  - replace (t <? due)%N with false by (symmetry; apply N.ltb_ge; lia).
    simpl. split; discriminate.
  - replace (t <? due)%N with true by (symmetry; apply N.ltb_lt; lia).
    simpl. exact IH.
Qed.










(** Just before expiry the same vault is still Unlocked, with the save
    in between or without it. *)
Example unlocked_just_before_expiry :
  isUnlocked (run [Idle 899998; Save p1; Idle 1] unlocked0) = true /\
  isUnlocked (run [Idle 899999] unlocked0) = true /\
  isUnlocked (run [Idle 900000] unlocked0) = false.
Proof. repeat split. Qed.

(** A timer left pending by an earlier [unlock] locks the vault before
    the 15 minutes of the latest one are over: unlock, 600 s, unlock,
    100 s, lock, unlock, and 200 s later the vault is Locked. *)
Example earlier_timer_locks_sooner :
  let w := fst (lock (run [Idle 100000]
                  (snd (fst (unlock "Tr0ub4dor&3" (run [Idle 600000] unlocked0))))))
  in
  isUnlocked w = false /\
  pendingTimers w = [(1%positive, 900000%N)] /\
  isUnlocked (run [Idle 199999] (snd (fst (unlock "Tr0ub4dor&3" w)))) = true /\
  isUnlocked (run [Idle 200000] (snd (fst (unlock "Tr0ub4dor&3" w)))) = false.
Proof. vm_compute. repeat split. Qed.

End KeyManagerFacts.

(* --------------------------------------------------------------------- *)
(** ** Rekey and import                                                   *)
(* --------------------------------------------------------------------- *)

Section VaultEngineFacts.
Import WebCrypto CryptoService DataModel VaultEngine Samples.

(** Re-encryption of a record fails exactly when the failure is forced
    or the old envelope does not decrypt; the entropy plays no part. *)
Lemma reencrypt_None {P : Primitives} oldKey newKey fault r e :
  reencrypt oldKey newKey fault r e = None <->
  fault = true \/ exists err, decrypt (envelope r) oldKey = inl err.
Proof.
  unfold reencrypt. destruct fault.
  - split; auto.
  - destruct (decrypt (envelope r) oldKey) as [err|plaintext].
    + split; eauto.
    + destruct (encrypt _ newKey e). split; [discriminate|].
      intros [?|[? ?]]; discriminate.
Qed.

(** Staging fails as soon as the re-encryption of one record fails. *)
Lemma stage_fails {P : Primitives} oldKey newKey faults (rs : list VaultRecord) :
  forall n e i r,
    rs !! i = Some r ->
    (faults (n + i)%nat = true \/ exists err, decrypt (envelope r) oldKey = inl err) ->
    stage oldKey newKey faults n rs e = None.
Proof.
  induction rs as [|r0 rs IH]; intros n e i r Hi Hfail; [discriminate|].
  simpl. destruct (reencrypt oldKey newKey (faults n) r0 e) as [[r' e1]|] eqn:H0;
    [|reflexivity].
  destruct i as [|i]; simpl in Hi.
  - injection Hi as ->. rewrite Nat.add_0_r in Hfail.
    pose proof (proj2 (reencrypt_None oldKey newKey (faults n) r e) Hfail).
    congruence.
  - rewrite (IH (S n) e1 i r Hi); [reflexivity|].
    now replace (S n + i)%nat with (n + S i)%nat by lia.
Qed.

(** Staging keeps the identity and the order of the records. *)
Lemma stage_ids {P : Primitives} oldKey newKey faults (rs : list VaultRecord) :
  forall n e staged e',
    stage oldKey newKey faults n rs e = Some (staged, e') ->
    List.map id staged = List.map id rs.
Proof.
  induction rs as [|r rs IH]; simpl; intros n e staged e' H.
  - now injection H as <- <-.
  - destruct (reencrypt oldKey newKey (faults n) r e) as [[r' e1]|] eqn:Hr;
      [|discriminate].
    destruct (stage oldKey newKey faults (S n) rs e1) as [[st e2]|] eqn:Hs;
      [|discriminate].
    injection H as <- <-. simpl. rewrite (IH _ _ _ _ Hs). f_equal.
    unfold reencrypt in Hr. destruct (faults n); [discriminate|].
    destruct (decrypt (envelope r) oldKey); [discriminate|].
    destruct (encrypt _ newKey e). now injection Hr as <- <-.
Qed.

(** When staging succeeds, every staged record whose plaintext is a text
    (bytes that the decoder and the encoder give back as they are)
    decrypts under the new key to the plaintext its original had under
    the old key. *)
Lemma stage_reencrypts {P : Primitives} {C : Correct P}
    oldKey newKey faults (rs : list VaultRecord) :
  forall n e staged e',
    stage oldKey newKey faults n rs e = Some (staged, e') ->
    Forall2 (fun r r' =>
               forall plaintext,
                 decrypt (envelope r) oldKey = inr plaintext ->
                 TextEncoder_encode (TextDecoder_decode plaintext) = plaintext ->
                 decrypt (envelope r') newKey = inr plaintext)
            rs staged.
Proof.
  induction rs as [|r rs IH]; simpl; intros n e staged e' H.
  - injection H as <- <-. constructor.
  - destruct (reencrypt oldKey newKey (faults n) r e) as [[r' e1]|] eqn:Hr;
      [|discriminate].
    destruct (stage oldKey newKey faults (S n) rs e1) as [[st e2]|] eqn:Hs;
      [|discriminate].
    injection H as <- <-. constructor; [|eapply IH; eassumption].
    intros plaintext0 Hd0 Htext.
    unfold reencrypt in Hr. destruct (faults n); [discriminate|].
    destruct (decrypt (envelope r) oldKey) as [|plaintext] eqn:Hd; [discriminate|].
    injection Hd0 as ->.
    pose proof (decrypt_encrypt (TextDecoder_decode plaintext0) newKey e) as Hrt.
    destruct (encrypt _ newKey e) as [envelope' e0]. injection Hr as <- <-.
    simpl in *. now rewrite Hrt, Htext.
Qed.

(** C2. Rekey is all or nothing. On an Unlocked vault, if the
    re-encryption of any one record fails (because the failure is forced
    on that record or because its envelope does not decrypt), [rekey]
    aborts with [RekeyAborted], the vault keeps its key, its metadata and
    every record as they were, so that whatever was readable under the
    old password still is, and nothing is written to the store: no record
    is persisted under the new key. New metadata is written only by a run
    in which every record was staged, after the batch of staged records. *)
Theorem rekey_all_or_nothing
    {P : Primitives} (newPassword : string) (faults : nat -> bool)
    (e : Entropy) (v : Vault) (oldKey : CryptoKey) (old : VaultMetadata)
    (i : nat) (r : VaultRecord) :
  key v = Some oldKey ->
  metadata v = Some old ->
  records v !! i = Some r ->
  (faults i = true \/ exists err, decrypt (envelope r) oldKey = inl err) ->
  rekey newPassword faults e v = (inl RekeyAborted, v, []) /\
  (forall oldPassword r0 plaintext,
      In r0 (records v) -> readable oldPassword v r0 plaintext ->
      In r0 (records (snd (fst (rekey newPassword faults e v)))) /\
      readable oldPassword (snd (fst (rekey newPassword faults e v))) r0 plaintext) /\
  (forall (faults' : nat -> bool) (new : VaultMetadata),
      In (SaveMetadata new) (snd (rekey newPassword faults' e v)) ->
      exists staged e2,
        stage oldKey (deriveKey newPassword (fst (getRandomValues 16 e)))
              faults' 0 (records v) (snd (getRandomValues 16 e))
          = Some (staged, e2) /\
        snd (rekey newPassword faults' e v) = [CommitBatch staged; SaveMetadata new]).
Proof.
  intros Hk Hm Hi Hfail.
  assert (Habort : rekey newPassword faults e v = (inl RekeyAborted, v, [])).
  { unfold rekey. rewrite Hk, Hm. simpl.
    now rewrite (stage_fails oldKey _ faults (records v) 0 _ i r Hi Hfail). }
  split; [exact Habort|]. split.
  - intros oldPassword r0 plaintext Hin Hread. rewrite Habort. simpl. auto.
  - intros faults' new. unfold rekey. rewrite Hk, Hm. simpl.
    destruct (stage oldKey _ faults' 0 (records v) _) as [[staged e2]|];
      simpl; [|tauto].
    intros [H|[H|[]]]; [discriminate|]. injection H as <-. eauto.
Qed.

Lemma rekey_all_or_nothing_witness :
  rekey "n3w-passw0rd" failSecond entropy0 vault0 = (inl RekeyAborted, vault0, []) /\
  (forall oldPassword r0 plaintext,
      In r0 (records vault0) -> readable oldPassword vault0 r0 plaintext ->
      In r0 (records (snd (fst (rekey "n3w-passw0rd" failSecond entropy0 vault0)))) /\
      readable oldPassword
        (snd (fst (rekey "n3w-passw0rd" failSecond entropy0 vault0))) r0 plaintext) /\
  (forall (faults' : nat -> bool) (new : VaultMetadata),
      In (SaveMetadata new) (snd (rekey "n3w-passw0rd" faults' entropy0 vault0)) ->
      exists staged e2,
        stage (@deriveKey toy "Tr0ub4dor&3" salt0)
              (@deriveKey toy "n3w-passw0rd" (fst (getRandomValues 16 entropy0)))
              faults' 0 (records vault0) (snd (getRandomValues 16 entropy0))
          = Some (staged, e2) /\
        snd (rekey "n3w-passw0rd" faults' entropy0 vault0)
          = [CommitBatch staged; SaveMetadata new]).
Proof.
  apply (@rekey_all_or_nothing toy "n3w-passw0rd" failSecond entropy0 vault0
           (@deriveKey toy "Tr0ub4dor&3" salt0) metadata0 1
           (record "p2" "example.org")).
  - reflexivity.
  - reflexivity.
  - reflexivity.
  - left. reflexivity.
Defined.

(** Without a failure the same rekey commits both records and then the
    new metadata, and the vault holds the new key. *)
Example rekey_commits :
  fst (fst (rekey "n3w-passw0rd" (fun _ => false) entropy0 vault0)) = inr tt /\
  key (snd (fst (rekey "n3w-passw0rd" (fun _ => false) entropy0 vault0)))
    = Some (@deriveKey toy "n3w-passw0rd" (fst (getRandomValues 16 entropy0))) /\
  match snd (rekey "n3w-passw0rd" (fun _ => false) entropy0 vault0) with
  | [CommitBatch staged; SaveMetadata _] => List.map id staged = ["p1"; "p2"]
  | _ => False
  end.
Proof. vm_compute. auto. Qed.

(** C4. [importBundle] checks the supplied password against the key
    check envelope of the bundle before it touches the local vault: when
    the check fails, it fails with [ImportAuthenticationFailed], writes
    nothing, and leaves the local key, metadata and records as they were,
    so that every record that was readable under the original password
    still is. *)
Theorem import_wrong_password_leaves_vault
    {P : Primitives} (bundle : VaultBundle) (password : string) (v : Vault) :
  keyCheckPasses (bundle_metadata bundle)
    (deriveKey password (salt (bundle_metadata bundle))) = false ->
  importBundle bundle password v = (inl ImportAuthenticationFailed, v, []) /\
  metadata (snd (fst (importBundle bundle password v))) = metadata v /\
  records (snd (fst (importBundle bundle password v))) = records v /\
  (forall original r plaintext,
      In r (records v) -> readable original v r plaintext ->
      In r (records (snd (fst (importBundle bundle password v)))) /\
      readable original (snd (fst (importBundle bundle password v))) r plaintext).
Proof.
  intros Hcheck.
  assert (Himp : importBundle bundle password v
                 = (inl ImportAuthenticationFailed, v, [])).
  { unfold importBundle. simpl. now rewrite Hcheck. }
  rewrite Himp. simpl. auto.
Qed.

Lemma import_wrong_password_leaves_vault_witness :
  importBundle bundle0 "wrong" vault0 = (inl ImportAuthenticationFailed, vault0, []) /\
  metadata (snd (fst (importBundle bundle0 "wrong" vault0))) = metadata vault0 /\
  records (snd (fst (importBundle bundle0 "wrong" vault0))) = records vault0 /\
  (forall original r plaintext,
      In r (records vault0) -> readable original vault0 r plaintext ->
      In r (records (snd (fst (importBundle bundle0 "wrong" vault0)))) /\
      readable original (snd (fst (importBundle bundle0 "wrong" vault0))) r plaintext).
Proof.
  apply (@import_wrong_password_leaves_vault toy bundle0 "wrong" vault0).
  reflexivity.
Defined.

(** With the right password the bundle replaces metadata and records,
    and the records of the sample vault are readable under its password. *)
Example import_right_password :
  importBundle bundle0 "Tr0ub4dor&3" vault0
  = (inr tt,
     {| key := key vault0; metadata := Some metadata0;
        records := bundle_records bundle0 |},
     [SaveMetadata metadata0; CommitBatch (bundle_records bundle0)]).
Proof. reflexivity. Qed.

Example sample_record_readable :
  readable "Tr0ub4dor&3" vault0 (record "p1" "example.com")
    (TextEncoder_encode "example.com").
Proof. exists metadata0. split; reflexivity. Qed.

End VaultEngineFacts.

(* --------------------------------------------------------------------- *)
(** ** The service worker: strategies, installation and activation        *)
(* --------------------------------------------------------------------- *)

Section ServiceWorkerStrategies.
Import ServiceWorker ServiceWorkerLifecycle Samples MoreSamples.

Ltac strategy_cases :=
  unfold handleFetchRequest, networkOnlyStrategy, networkFirstStrategy,
    cacheFirstStrategy;
  repeat match goal with
         | |- context [if ?b then _ else _] => destruct b eqn:?
         | |- context [match ?x with _ => _ end] => destruct x eqn:?
         end; simpl in *.

(** X1. Whatever the strategy, the fetch handler starts at most one cache
    write per request, and what it writes is the response the network just
    gave for that request, with an ok status, under the URL of the request,
    in the static or the dynamic cache; the request is not a sensitive
    one. *)
Theorem handler_caches_only_ok_network_responses
    (fetch : Network) (caches : CacheStorage) (request : Request) (op : CacheOp) :
  In op (snd (handleFetchRequest fetch caches request)) ->
  exists r cacheName,
    fetch request = Some r /\ ok r = true /\
    shouldUseNetworkOnly (url request) = false /\
    (cacheName = STATIC_CACHE \/ cacheName = DYNAMIC_CACHE) /\
    op = CachePut cacheName (href (url request)) r /\
    snd (handleFetchRequest fetch caches request) = [op].
Proof.
  strategy_cases; intros Hin; try contradiction;
    destruct Hin as [<-|[]]; eauto 10.
Qed.

Lemma handler_caches_only_ok_network_responses_witness :
  exists r cacheName,
    online userRequest = Some r /\ ok r = true /\
    shouldUseNetworkOnly (url userRequest) = false /\
    (cacheName = STATIC_CACHE \/ cacheName = DYNAMIC_CACHE) /\
    CachePut DYNAMIC_CACHE "https://vault.example/api/user" vaultResponse
      = CachePut cacheName (href (url userRequest)) r /\
    snd (handleFetchRequest online [] userRequest)
      = [CachePut DYNAMIC_CACHE "https://vault.example/api/user" vaultResponse].
Proof.
  apply (handler_caches_only_ok_network_responses online [] userRequest
           (CachePut DYNAMIC_CACHE "https://vault.example/api/user" vaultResponse)).
  simpl. auto.
Defined.

(** X2. Requests under /api/ or /server/ are never answered from the
    cache while the network answers: whatever the caches hold, and even
    when the path also looks like a static asset, the handler returns the
    live response. *)
Theorem api_request_answered_by_network
    (fetch : Network) (caches : CacheStorage) (request : Request) (r : Response) :
  startsWith (pathname (url request)) "/api/" = true \/
  startsWith (pathname (url request)) "/server/" = true ->
  fetch request = Some r ->
  fst (handleFetchRequest fetch caches request) = Some r.
Proof.
  intros Hpath Hfetch.
  assert (Hnf : shouldUseNetworkFirst (url request) = true).
  { unfold shouldUseNetworkFirst, NETWORK_FIRST_URLS, some. simpl.
    destruct Hpath as [->| ->]; simpl; [reflexivity|apply orb_true_r]. }
  unfold handleFetchRequest, networkOnlyStrategy, networkFirstStrategy.
  rewrite Hnf, Hfetch. now destruct (shouldUseNetworkOnly (url request)).
Qed.

Lemma api_request_answered_by_network_witness :
  fst (handleFetchRequest online
         [(STATIC_CACHE, {[ "https://vault.example/api/user" := networkUnavailable ]})]
         userRequest) = Some vaultResponse.
Proof.
  apply (api_request_answered_by_network online _ userRequest vaultResponse);
    [left|]; reflexivity.
Defined.

Lemma offline_cached_answer
    (fetch : Network) (caches : CacheStorage) (request : Request) cached :
  fetch request = None ->
  shouldUseNetworkOnly (url request) = false ->
  caches_match caches (href (url request)) = Some cached ->
  handleFetchRequest fetch caches request = (Some cached, []).
Proof.
  intros Hfetch Hs Hc.
  unfold handleFetchRequest, networkFirstStrategy, cacheFirstStrategy.
  rewrite Hs, Hfetch, Hc.
  destruct (shouldUseNetworkFirst _); [reflexivity|].
  now destruct (shouldUseCacheFirst _).
Qed.

(** X3. When the network is down the handler writes nothing to any cache,
    and a request that is not sensitive and has a cached response is
    answered with that response. *)
Theorem offline_serves_cache_and_writes_nothing
    (fetch : Network) (caches : CacheStorage) (request : Request) :
  fetch request = None ->
  snd (handleFetchRequest fetch caches request) = [] /\
  (forall cached,
      shouldUseNetworkOnly (url request) = false ->
      caches_match caches (href (url request)) = Some cached ->
      handleFetchRequest fetch caches request = (Some cached, [])).
Proof.
  intros Hfetch. split.
  - strategy_cases; congruence.
  - intros cached Hs Hc. now apply offline_cached_answer.
Qed.

Lemma offline_serves_cache_and_writes_nothing_witness :
  snd (handleFetchRequest offline
         [(DYNAMIC_CACHE, {[ "https://vault.example/passwords" := vaultResponse ]})]
         pageRequest) = [] /\
  (forall cached,
      shouldUseNetworkOnly (url pageRequest) = false ->
      caches_match
        [(DYNAMIC_CACHE, {[ "https://vault.example/passwords" := vaultResponse ]})]
        (href (url pageRequest)) = Some cached ->
      handleFetchRequest offline
        [(DYNAMIC_CACHE, {[ "https://vault.example/passwords" := vaultResponse ]})]
        pageRequest = (Some cached, [])).
Proof.
  apply (offline_serves_cache_and_writes_nothing offline _ pageRequest).
  reflexivity.
Defined.

Lemma offline_navigation_answer
    (fetch : Network) (caches : CacheStorage) (request : Request) :
  fetch request = None ->
  shouldUseNetworkOnly (url request) = false ->
  shouldUseNetworkFirst (url request) = true \/
  shouldUseCacheFirst (url request) = false ->
  destination request = "document" ->
  caches_match caches (href (url request)) = None ->
  handleFetchRequest fetch caches request = (caches_match caches "/offline.html", []).
Proof.
  intros Hfetch Hs Hclass Hdoc Hc.
  unfold handleFetchRequest, networkFirstStrategy. rewrite Hs, Hfetch, Hc, Hdoc.
  destruct Hclass as [-> | ->]; [reflexivity|].
  now destruct (shouldUseNetworkFirst _).
Qed.

(** X4. A navigation that fails offline is answered with whatever
    [caches.match('/offline.html')] gives: when no cache holds that page
    the handler resolves to [undefined]. The page that [getOfflinePage()]
    would generate is never the answer. *)
Theorem offline_navigation_without_offline_page
    (fetch : Network) (caches : CacheStorage) (request : Request) :
  fetch request = None ->
  shouldUseNetworkOnly (url request) = false ->
  shouldUseNetworkFirst (url request) = true \/
  shouldUseCacheFirst (url request) = false ->
  destination request = "document" ->
  caches_match caches (href (url request)) = None ->
  handleFetchRequest fetch caches request = (caches_match caches "/offline.html", []) /\
  (caches_match caches "/offline.html" = None ->
   handleFetchRequest fetch caches request = (None, [])).
Proof.
  intros Hfetch Hs Hclass Hdoc Hc.
  pose proof (offline_navigation_answer fetch caches request Hfetch Hs Hclass Hdoc Hc)
    as H.
  split; [exact H|]. intros Hnone. now rewrite H, Hnone.
Qed.

Lemma offline_navigation_without_offline_page_witness :
  handleFetchRequest offline [] pageRequest = (caches_match [] "/offline.html", []) /\
  (caches_match [] "/offline.html" = None ->
   handleFetchRequest offline [] pageRequest = (None, [])).
Proof.
  apply (offline_navigation_without_offline_page offline [] pageRequest);
    try reflexivity.
  right. reflexivity.
Defined.

(** A cache write makes its key match; when no cache matched the key
    before, the match is the response just written. *)
Lemma cachePut_match caches cacheName key r :
  is_Some (caches_match (cachePut caches cacheName key r) key) /\
  (caches_match caches key = None ->
   caches_match (cachePut caches cacheName key r) key = Some r).
Proof.
  induction caches as [|[n c] rest [IHs IHn]]; simpl.
  - rewrite lookup_singleton_eq. eauto.
  - destruct (String.eqb n cacheName); simpl.
    + rewrite lookup_insert_eq. split; [eauto|].
      destruct (c !! key); [discriminate|reflexivity].
    + destruct (c !! key); [split; [eauto|discriminate]|]. auto.
Qed.

(** A cache write under another key does not change what a key matches. *)
Lemma cachePut_match_other caches cacheName key key' r :
  key <> key' ->
  caches_match (cachePut caches cacheName key r) key' = caches_match caches key'.
Proof.
  intros Hne. induction caches as [|[n c] rest IH]; simpl.
  - now rewrite lookup_singleton_ne.
  - destruct (String.eqb n cacheName); simpl.
    + now rewrite lookup_insert_ne.
    + now rewrite IH.
Qed.

Lemma cachesOpen_match cacheName caches key :
  caches_match (cachesOpen cacheName caches) key = caches_match caches key.
Proof.
  unfold cachesOpen. destruct (existsb _ caches); [reflexivity|].
  induction caches as [|[n c] rest IH]; simpl; [reflexivity|].
  destruct (c !! key); [reflexivity|exact IH].
Qed.

(** X5. What was fetched online is there offline. When the handler has
    answered a request that is not sensitive with an ok response of the
    network (status other than 206) and its cache write has been applied,
    the same request with the network down is answered from the cache, with
    no further write; the answer is that response when nothing matched the
    request before. *)
Theorem fetched_online_served_offline
    (fetch down : Network) (caches : CacheStorage) (request : Request) (r : Response) :
  shouldUseNetworkOnly (url request) = false ->
  fetch request = Some r ->
  ok r = true ->
  status r <> 206%N ->
  down request = None ->
  let caches' := applyOps caches (snd (handleFetchRequest fetch caches request)) in
  (exists cached,
      handleFetchRequest down caches' request = (Some cached, [])) /\
  (caches_match caches (href (url request)) = None ->
   handleFetchRequest down caches' request = (Some r, [])).
Proof.
  intros Hs Hfetch Hok H206 Hdown caches'.
  assert (Hput : exists cacheName,
             caches' = cachePut caches cacheName (href (url request)) r).
  { subst caches'. apply N.eqb_neq in H206.
    unfold handleFetchRequest, networkFirstStrategy, cacheFirstStrategy.
    rewrite Hs, Hfetch, Hok. simpl.
    destruct (shouldUseNetworkFirst _); simpl; [rewrite H206; eauto|].
    destruct (shouldUseCacheFirst _); simpl;
      [destruct (caches_match caches _); simpl|]; rewrite H206; eauto. }
  destruct Hput as [cacheName ->].
  destruct (cachePut_match caches cacheName (href (url request)) r) as [[c Hc] Hnew].
  split.
  - exists c. now apply offline_cached_answer.
  - intros Hnone. apply offline_cached_answer; [exact Hdown|exact Hs|now apply Hnew].
Qed.

Lemma fetched_online_served_offline_witness :
  let caches' := applyOps [] (snd (handleFetchRequest online [] pageRequest)) in
  (exists cached,
      handleFetchRequest offline caches' pageRequest = (Some cached, [])) /\
  (caches_match [] (href (url pageRequest)) = None ->
   handleFetchRequest offline caches' pageRequest = (Some vaultResponse, [])).
Proof.
  apply (fetched_online_served_offline online offline [] pageRequest vaultResponse);
    try reflexivity.
  discriminate.
Defined.

Lemma fetchAll_None fetchUrl (assets : list string) asset :
  In asset assets ->
  (fetchUrl asset = None \/
   exists r, fetchUrl asset = Some r /\ (ok r = false \/ status r = 206%N)) ->
  fetchAll fetchUrl assets = None.
Proof.
  induction assets as [|a rest IH]; intros Hin Hbad; [contradiction|].
  simpl. destruct Hin as [->|Hin].
  - destruct Hbad as [->|(r & -> & [->| ->])]; [reflexivity|reflexivity|].
    now rewrite andb_false_r.
  - rewrite (IH Hin Hbad). destruct (fetchUrl a) as [r|]; [|reflexivity].
    now destruct (ok r && negb (status r =? 206)%N).
Qed.

(** X7. Installation is all or nothing: when the fetch of one static
    asset rejects, or its response is not ok or has status 206, no asset is
    stored (every key matches what it matched before) and [skipWaiting()]
    is not called. *)
Theorem install_all_or_nothing
    (fetchUrl : string -> option Response) (caches : CacheStorage) (asset : string) :
  In asset STATIC_ASSETS ->
  (fetchUrl asset = None \/
   exists r, fetchUrl asset = Some r /\ (ok r = false \/ status r = 206%N)) ->
  snd (install fetchUrl caches) = false /\
  (forall key,
      caches_match (fst (install fetchUrl caches)) key = caches_match caches key).
Proof.
  intros Hin Hbad. unfold install.
  rewrite (fetchAll_None fetchUrl STATIC_ASSETS asset Hin Hbad). simpl.
  split; [reflexivity|]. intros key. apply cachesOpen_match.
Qed.

Lemma install_all_or_nothing_witness :
  snd (install (fun a => if String.eqb a "/manifest.json" then None
                         else Some vaultResponse) []) = false /\
  (forall key,
      caches_match
        (fst (install (fun a => if String.eqb a "/manifest.json" then None
                                else Some vaultResponse) [])) key
      = caches_match [] key).
Proof.
  apply (install_all_or_nothing _ [] "/manifest.json").
  - simpl. auto.
  - left. reflexivity.
Defined.

Lemma activate_cachesOpen caches cacheName :
  isCurrentCache cacheName = true ->
  activate (cachesOpen cacheName caches) = cachesOpen cacheName (activate caches).
Proof.
  intros Hcur. unfold cachesOpen, activate.
  assert (He : existsb (fun c => String.eqb (fst c) cacheName)
                 (List.filter (fun c => isCurrentCache (fst c)) caches)
               = existsb (fun c => String.eqb (fst c) cacheName) caches).
  { induction caches as [|[n c] rest IH]; simpl; [reflexivity|].
    destruct (String.eqb_spec n cacheName) as [->|Hne]; simpl.
    - rewrite Hcur. simpl. now rewrite String.eqb_refl.
    - destruct (isCurrentCache n); simpl; [|exact IH].
      destruct (String.eqb_spec n cacheName); [contradiction|exact IH]. }
  rewrite He. destruct (existsb _ caches); [reflexivity|].
  rewrite List.filter_app. simpl. now rewrite Hcur.
Qed.

Lemma activate_cachePut caches cacheName key r :
  isCurrentCache cacheName = true ->
  activate (cachePut caches cacheName key r) = cachePut (activate caches) cacheName key r.
Proof.
  intros Hcur. unfold activate.
  induction caches as [|[n c] rest IH]; simpl; [now rewrite Hcur|].
  destruct (String.eqb_spec n cacheName) as [->|Hne]; simpl.
  - rewrite Hcur. simpl. now rewrite String.eqb_refl.
  - destruct (isCurrentCache n); simpl; [|exact IH].
    destruct (String.eqb_spec n cacheName); [contradiction|]. now rewrite IH.
Qed.

Lemma handler_writes_to_current_cache
    (fetch : Network) (caches : CacheStorage) (request : Request) (op : CacheOp) :
  In op (snd (handleFetchRequest fetch caches request)) ->
  exists cacheName key r,
    op = CachePut cacheName key r /\ isCurrentCache cacheName = true.
Proof.
  strategy_cases; intros Hin; try contradiction;
    destruct Hin as [<-|[]]; eexists _, _, _; split; reflexivity.
Qed.

(** X8. Activation never discards what the fetch handler caches. It
    leaves only caches with one of the three current names, and for every
    cache write of the handler, cleaning up after the write gives the same
    cache storage as the write after the clean-up. *)
Theorem activate_keeps_handler_writes
    (fetch : Network) (caches stored : CacheStorage) (request : Request) (op : CacheOp) :
  In op (snd (handleFetchRequest fetch caches request)) ->
  activate (applyOp stored op) = applyOp (activate stored) op /\
  Forall (fun c => fst c = STATIC_CACHE \/ fst c = DYNAMIC_CACHE \/ fst c = CACHE_NAME)
         (activate stored).
Proof.
  intros Hin.
  destruct (handler_writes_to_current_cache fetch caches request op Hin)
    as (cacheName & key & r & -> & Hname).
  split.
  - simpl. destruct (status r =? 206)%N.
    + now apply activate_cachesOpen.
    + now apply activate_cachePut.
  - unfold activate. apply List.Forall_forall. intros [n c] Hf.
    apply filter_In in Hf as [_ Hcur]. simpl in *. unfold isCurrentCache in Hcur.
    destruct (String.eqb_spec n STATIC_CACHE); [auto|].
    destruct (String.eqb_spec n DYNAMIC_CACHE); [auto|].
    destruct (String.eqb_spec n CACHE_NAME); [auto|discriminate].
Qed.

Lemma activate_keeps_handler_writes_witness :
  activate (applyOp [("securevault-static-v0.9.0", ∅)]
              (CachePut DYNAMIC_CACHE "https://vault.example/api/user" vaultResponse))
    = applyOp (activate [("securevault-static-v0.9.0", ∅)])
        (CachePut DYNAMIC_CACHE "https://vault.example/api/user" vaultResponse) /\
  Forall (fun c => fst c = STATIC_CACHE \/ fst c = DYNAMIC_CACHE \/ fst c = CACHE_NAME)
         (activate [("securevault-static-v0.9.0", ∅)]).
Proof.
  apply (activate_keeps_handler_writes online [] _ userRequest).
  simpl. auto.
Defined.

(** A string that ends with a pattern contains it. *)
Lemma endsWith_includes (s pattern : string) :
  endsWith s pattern = true -> includes s pattern = true.
Proof.
  unfold endsWith, includes. intros H.
  apply andb_true_iff in H as [_ Hsub]. apply String.eqb_eq in Hsub.
  destruct (index 0 pattern s) eqn:Hidx; [reflexivity|]. exfalso.
  destruct (string_dec pattern "") as [->|Hne].
  - apply index_correct4 in Hidx. lia.
  - apply (index_correct3 0 (String.length s - String.length pattern)) in Hidx;
      [contradiction | exact Hne | lia].
Qed.

(** X9. The static-asset test depends on containment only: a pathname is
    cache-first exactly when it contains one of the patterns of
    [CACHE_FIRST_URLS] anywhere; the [endsWith] test never decides. A path
    that merely contains ".js", such as one that ends in ".json", is
    therefore treated as a static asset. *)
Theorem cache_first_iff_pathname_contains_pattern (u : URL) :
  shouldUseCacheFirst u = true <->
  exists pattern,
    In pattern CACHE_FIRST_URLS /\ includes (pathname u) pattern = true.
Proof.
  unfold shouldUseCacheFirst. rewrite some_true_iff. split.
  - intros (pattern & Hin & H). exists pattern. split; [exact Hin|].
    apply orb_true_iff in H as [H|H]; [exact H|now apply endsWith_includes].
  - intros (pattern & Hin & H). exists pattern. split; [exact Hin|].
    now rewrite H.
Qed.

Example json_is_a_static_asset :
  shouldUseCacheFirst
    {| href := "https://vault.example/data/settings.json"; protocol := "https:";
       pathname := "/data/settings.json" |} = true.
Proof. reflexivity. Qed.

End ServiceWorkerStrategies.

(* --------------------------------------------------------------------- *)
(** ** The key manager over histories of calls                            *)
(* --------------------------------------------------------------------- *)

Section KeyManagerHistories.
Import WebCrypto CryptoService DataModel KeyManager KeyManagerHistory Samples MoreSamples.

Lemma unlock_clock {P : Primitives} password (w : World) :
  clock (snd (fst (unlock password w))) = clock w.
Proof.
  unfold unlock. destruct (vaultMetadata w) as [metadata|].
  - destruct (verifyKey metadata _); simpl.
    + reflexivity.
    + match goal with |- context [lock ?x] =>
        destruct (lock x) as [w2 fx] eqn:Hl;
        change w2 with (fst (w2, fx)); rewrite <- Hl
      end.
      simpl. now rewrite (proj1 (lock_frame _)).
  - destruct (lock w) as [w2 fx] eqn:Hl. simpl.
    change w2 with (fst (w2, fx)). rewrite <- Hl. apply lock_frame.
Qed.

(** X10. The result of [unlock] tells the state: it resolves to [true]
    exactly when the key manager is Unlocked afterwards. When it resolves
    to [false] no key and no timer handle are left, also when the manager
    was Unlocked before the call: a failed attempt locks an unlocked
    vault. *)
Theorem unlock_result_is_the_state
    {P : Primitives} (password : string) (w : World) :
  fst (fst (unlock password w)) = isUnlocked (snd (fst (unlock password w))) /\
  (fst (fst (unlock password w)) = false ->
   masterKey (manager (snd (fst (unlock password w)))) = None /\
   autoLockTimer (manager (snd (fst (unlock password w)))) = None).
Proof.
  unfold unlock. destruct (vaultMetadata w) as [metadata|].
  - destruct (verifyKey metadata _) eqn:Hv.
    + simpl. split; [reflexivity|discriminate].
    + match goal with |- context [lock ?x] =>
        pose proof (lock_clears x) as [Hk Ht]; destruct (lock x) as [w2 fx]
      end.
      simpl in *. unfold isUnlocked. rewrite Hk. auto.
  - pose proof (lock_clears w) as [Hk Ht]. destruct (lock w) as [w2 fx].
    simpl in *. unfold isUnlocked. rewrite Hk. auto.
Qed.

Example failed_unlock_locks_unlocked_vault :
  isUnlocked unlocked0 = true /\
  fst (fst (unlock "wrong" unlocked0)) = false /\
  isUnlocked (snd (fst (unlock "wrong" unlocked0))) = false /\
  pendingTimers (snd (fst (unlock "wrong" unlocked0))) = [] /\
  snd (unlock "wrong" unlocked0) = [ClearTimeout 1; ClearSensitiveState].
Proof. repeat split. Qed.

Lemma perform_clock {P : Primitives} (w : World) (a : Action) :
  clock (perform w a) = (clock w + waited [a])%N.
Proof.
  destruct a as [password| |entry|dt]; simpl.
  - rewrite unlock_clock. lia.
  - rewrite (proj1 (lock_frame w)). lia.
  - destruct (savePassword_frame entry w) as (_ & -> & _). lia.
  - rewrite advance_clock. lia.
Qed.

Lemma history_clock {P : Primitives} (actions : list Action) :
  forall w : World, clock (history actions w) = (clock w + waited actions)%N.
Proof.
  induction actions as [|a rest IH]; intros w; simpl; [lia|].
  change (fold_left perform rest (perform w a)) with (history rest (perform w a)).
  rewrite IH, perform_clock. simpl. destruct a; lia.
Qed.

(** Between two calls of [unlock] the due time of the timer in hand does
    not move. *)
Lemma perform_timerDueBy {P : Primitives} limit (w : World) (a : Action) :
  isCallUnlock a = false ->
  timerDueBy limit w -> timerDueBy limit (perform w a).
Proof.
  intros Hnot Hinv. destruct a as [password| |entry|dt]; simpl; [discriminate| | |].
  - intros Hu. unfold isUnlocked in Hu.
    now rewrite (proj1 (lock_clears w)) in Hu.
  - destruct (savePassword_frame entry w) as (Hm & Hc & Hp & _).
    unfold timerDueBy, isUnlocked in *. now rewrite Hm, Hc, Hp.
  - unfold advance.
    match goal with |- context [runTimers ?f ?t ?x] =>
      destruct (runTimers_cases t f x) as [Hclock [[Hsame Hnone]|[Hk _]]]
    end.
    + rewrite Hsame. intros Hu.
      destruct (Hinv Hu) as (id & due & Hh & Hin & _ & Hlim).
      exists id, due. simpl in *.
      split; [assumption|]. split; [assumption|]. split; [|assumption].
      destruct Hnone as [Hlen|Hnone].
      * destruct (pendingTimers w); [contradiction|discriminate].
      * apply (List.find_none _ _ Hnone) in Hin. simpl in Hin.
        apply N.leb_gt in Hin. exact Hin.
    + intros Hu. unfold isUnlocked in Hu. now rewrite Hk in Hu.
Qed.

Lemma history_timerDueBy {P : Primitives} limit (actions : list Action) :
  forallb (fun a => negb (isCallUnlock a)) actions = true ->
  forall w : World, timerDueBy limit w -> timerDueBy limit (history actions w).
Proof.
  induction actions as [|a rest IH]; simpl; intros Hnot w Hinv; [exact Hinv|].
  apply andb_true_iff in Hnot as [Ha Hrest]. apply negb_true_iff in Ha.
  apply (IH Hrest). now apply perform_timerDueBy.
Qed.

(** After every call and every wait, an Unlocked manager holds a timer
    that is due within the next 15 minutes. *)
Lemma perform_timer_within_15_minutes {P : Primitives} (w : World) (a : Action) :
  timerDueBy (clock w + 900000) w ->
  timerDueBy (clock (perform w a) + 900000) (perform w a).
Proof.
  intros Hinv. destruct (isCallUnlock a) eqn:Ha.
  - destruct a as [password| | |]; try discriminate. simpl.
    rewrite unlock_clock. unfold unlock.
    destruct (vaultMetadata w) as [metadata|].
    + destruct (verifyKey metadata _).
      * simpl. intros _. exists (nextTimerId w), (clock w + 900000)%N.
        split; [reflexivity|]. split; [apply in_or_app; right; now left|].
        unfold setManager. simpl. split; lia.
      * match goal with |- context [lock ?x] =>
          pose proof (lock_clears x) as [Hk _]; destruct (lock x) as [w2 fx]
        end.
        simpl in *. intros Hu. unfold isUnlocked in Hu. now rewrite Hk in Hu.
    + pose proof (lock_clears w) as [Hk _]. destruct (lock w) as [w2 fx].
      simpl in *. intros Hu. unfold isUnlocked in Hu. now rewrite Hk in Hu.
  - pose proof (perform_timerDueBy _ w a Ha Hinv) as H.
    rewrite perform_clock. intros Hu.
    destruct (H Hu) as (id & due & ? & ? & ? & ?).
    exists id, due.
    split; [assumption|]. split; [assumption|]. split; [assumption|lia].
Qed.

Lemma history_timer_within_15_minutes {P : Primitives} (actions : list Action) :
  forall w : World,
    timerDueBy (clock w + 900000) w ->
    timerDueBy (clock (history actions w) + 900000) (history actions w).
Proof.
  induction actions as [|a rest IH]; simpl; intros w Hinv; [exact Hinv|].
  apply IH. now apply perform_timer_within_15_minutes.
Qed.

(** The event loop leaves no timer overdue: it runs every timer that is
    due, and [unlock], [lock] and [savePassword] schedule no timer in the
    past. *)
Lemma filter_length_lt {A} (f : A -> bool) (l : list A) (x : A) :
  In x l -> f x = false -> (length (List.filter f l) < length l)%nat.
Proof.
  induction l as [|y l IH]; simpl; [contradiction|].
  intros [->|Hin] Hx.
  - rewrite Hx. pose proof (List.filter_length_le f l). lia.
  - specialize (IH Hin Hx). destruct (f y); simpl; lia.
Qed.

Lemma noneDue_filter (f : positive * N -> bool) timers t :
  noneDue timers t = true -> noneDue (List.filter f timers) t = true.
Proof.
  unfold noneDue. rewrite !forallb_forall. intros H x Hx.
  apply filter_In in Hx as [Hx _]. now apply H.
Qed.

Lemma lock_pendingTimers {P : Primitives} (w : World) :
  exists f, pendingTimers (fst (lock w)) = List.filter f (pendingTimers w).
Proof.
  unfold lock. destruct (autoLockTimer (manager w)) as [id|]; simpl.
  - eexists. reflexivity.
  - exists (fun _ => true). symmetry. apply forallb_filter_id.
    now apply forallb_forall.
Qed.

Lemma runTimers_no_timer_overdue {P : Primitives} (t : N) (fuel : nat) :
  forall w : World,
    (length (pendingTimers w) <= fuel)%nat ->
    noneDue (pendingTimers (fst (runTimers fuel t w))) t = true.
Proof.
  induction fuel as [|fuel IH]; intros w Hlen; simpl.
  - destruct (pendingTimers w); [reflexivity|simpl in Hlen; lia].
  - destruct (List.find _ (pendingTimers w)) as [[id due]|] eqn:Hfind;
      [|now apply noneDue_find].
    apply find_some in Hfind as [Hin _].
    destruct (lock_pendingTimers (clearTimeout id w)) as [f Hf].
    destruct (lock (clearTimeout id w)) as [w1 fx1] eqn:Hl. simpl in Hf.
    specialize (IH w1).
    destruct (runTimers fuel t w1) as [w2 fx2]. simpl in *. apply IH.
    rewrite Hf.
    match goal with |- (length (List.filter f ?l) <= _)%nat =>
      pose proof (List.filter_length_le f l) as Hle;
      assert (Hlt : (length l < length (pendingTimers w))%nat)
    end.
    { apply (filter_length_lt _ _ (id, due) Hin). simpl. now rewrite Pos.eqb_refl. }
    lia.
Qed.

Lemma perform_no_timer_overdue {P : Primitives} (w : World) (a : Action) :
  noneDue (pendingTimers w) (clock w) = true ->
  noneDue (pendingTimers (perform w a)) (clock (perform w a)) = true.
Proof.
  intros Hinv. rewrite perform_clock.
  destruct a as [password| |entry|dt]; simpl; rewrite ?N.add_0_r.
  - unfold unlock. destruct (vaultMetadata w) as [metadata|].
    + destruct (verifyKey metadata _).
      * simpl. unfold noneDue in *. rewrite forallb_app, Hinv. simpl.
        rewrite andb_true_r. apply N.ltb_lt. lia.
      * match goal with |- context [lock ?x] =>
          destruct (lock_pendingTimers x) as [f Hf]; destruct (lock x) as [w2 fx]
        end.
        simpl in *. rewrite Hf. now apply noneDue_filter.
    + destruct (lock_pendingTimers w) as [f Hf]. destruct (lock w) as [w2 fx].
      simpl in *. rewrite Hf. now apply noneDue_filter.
  - destruct (lock_pendingTimers w) as [f ->]. now apply noneDue_filter.
  - now destruct (savePassword_frame entry w) as (_ & _ & -> & _).
  - unfold advance. now apply runTimers_no_timer_overdue.
Qed.

Lemma history_no_timer_overdue {P : Primitives} (actions : list Action) :
  forall w : World,
    noneDue (pendingTimers w) (clock w) = true ->
    noneDue (pendingTimers (history actions w)) (clock (history actions w)) = true.
Proof.
  induction actions as [|a rest IH]; simpl; intros w Hinv; [exact Hinv|].
  apply IH. now apply perform_no_timer_overdue.
Qed.

(** X11. The auto-lock cannot be put off. Start from a Locked key manager
    and let any calls of [unlock], [lock] and [savePassword] happen, with
    any waits between them: once 15 minutes have passed without a call of
    [unlock], the manager is Locked, whatever else was called in those 15
    minutes. *)
Theorem locked_15_minutes_after_last_unlock
    {P : Primitives} (w : World) (before recent : list Action) :
  isUnlocked w = false ->
  forallb (fun a => negb (isCallUnlock a)) recent = true ->
  (15 * 60 * 1000 <= waited recent)%N ->
  isUnlocked (history (before ++ recent) w) = false.
Proof.
  intros Hlocked Hnot Hwait. change (15 * 60 * 1000)%N with 900000%N in Hwait.
  unfold history. rewrite fold_left_app.
  change (isUnlocked (history recent (history before w)) = false).
  assert (Hinv : timerDueBy (clock (history before w) + 900000) (history before w)).
  { apply history_timer_within_15_minutes. intros Hu. congruence. }
  pose proof (history_timerDueBy _ recent Hnot _ Hinv) as Hend.
  destruct (isUnlocked (history recent (history before w))) eqn:Hu; [|reflexivity].
  destruct (Hend Hu) as (id & due & _ & _ & Hlt & Hle).
  rewrite history_clock in Hlt. lia.
Qed.

Lemma locked_15_minutes_after_last_unlock_witness :
  isUnlocked
    (history ([CallUnlock "Tr0ub4dor&3"; Wait 600000; CallUnlock "Tr0ub4dor&3"]
              ++ [CallSave p1; Wait 899999; CallSave p1; Wait 1]) locked0) = false.
Proof.
  apply (@locked_15_minutes_after_last_unlock toy locked0
           [CallUnlock "Tr0ub4dor&3"; Wait 600000; CallUnlock "Tr0ub4dor&3"]
           [CallSave p1; Wait 899999; CallSave p1; Wait 1]).
  - reflexivity.
  - reflexivity.
  - vm_compute. discriminate.
Defined.

(** X12. A second [unlock] does not extend the session. When the key
    manager is Unlocked with its timer pending and [unlock] succeeds again,
    the first timer stays scheduled: the manager locks when that timer is
    due, which is less than 15 minutes after the second [unlock], and the
    timer of the second [unlock] is cancelled with it. *)
Theorem second_unlock_does_not_extend
    {P : Primitives} (password : string) (w w2 : World) (fx : list Effect)
    (id : positive) (due : N) :
  armed id due w ->
  (due < clock w + 15 * 60 * 1000)%N ->
  unlock password w = (true, w2, fx) ->
  isUnlocked w2 = true /\
  (due - clock w < 15 * 60 * 1000)%N /\
  isUnlocked (fst (advance (due - clock w) w2)) = false /\
  pendingTimers (fst (advance (due - clock w) w2)) = [].
Proof.
  intros (Hc & Hu & Hh & Hp) Hdue Hunlock.
  change (15 * 60 * 1000)%N with 900000%N in *.
  destruct w as [[mk tm] c n ts md pw en]. unfold isUnlocked in Hu.
  simpl in *. subst tm ts.
  unfold unlock in Hunlock. simpl in Hunlock.
  destruct md as [metadata|]; [|discriminate].
  destruct (verifyKey metadata _); [|discriminate].
  injection Hunlock as <- <-.
  split; [reflexivity|]. split; [lia|].
  unfold advance, setAutoLockTimer, setTimeout, setManager. simpl.
  replace (c + (due - c))%N with due by lia.
  rewrite N.leb_refl. simpl.
  unfold lock, clearTimeout, setPendingTimers, setManager. simpl.
  rewrite Pos.eqb_refl. simpl.
  destruct (Pos.eqb n id) eqn:Hn; simpl.
  - split; reflexivity.
  - rewrite Pos.eqb_refl. simpl. split; reflexivity.
Qed.

Lemma second_unlock_does_not_extend_witness :
  isUnlocked (snd (fst (unlock "Tr0ub4dor&3" tenMinutesIn))) = true /\
  (900000 - clock tenMinutesIn < 15 * 60 * 1000)%N /\
  isUnlocked
    (fst (advance (900000 - clock tenMinutesIn)
            (snd (fst (unlock "Tr0ub4dor&3" tenMinutesIn))))) = false /\
  pendingTimers
    (fst (advance (900000 - clock tenMinutesIn)
            (snd (fst (unlock "Tr0ub4dor&3" tenMinutesIn))))) = [].
Proof.
  apply (@second_unlock_does_not_extend toy "Tr0ub4dor&3" tenMinutesIn _
           [SetTimeout 2 900000] 1%positive 900000%N).
  - repeat split.
  - reflexivity.
  - reflexivity.
Defined.

(** X13. A password saved while the key is in memory can be read back:
    the ['passwords'] store holds, under the id of the entry, an envelope
    that decrypts under that key to the JSON text of the entry, and the
    entries under other ids, the key manager and its timers are untouched.
    While Locked, [savePassword] fails and leaves the store as it was.
    AES-GCM is assumed functionally correct. *)
Theorem saved_password_reads_back
    {P : Primitives} (C : Correct P)
    (entry : PasswordEntry) (w : World) (key : CryptoKey) :
  masterKey (manager w) = Some key ->
  let w' := snd (savePassword entry w) in
  fst (savePassword entry w) = true /\
  (exists stored,
      passwords w' !! entry_id entry = Some stored /\
      decrypt stored key = inr (TextEncoder_encode (json entry))) /\
  (forall other, other <> entry_id entry ->
      passwords w' !! other = passwords w !! other) /\
  manager w' = manager w /\ pendingTimers w' = pendingTimers w /\
  (forall locked : World,
      isUnlocked locked = false ->
      fst (savePassword entry locked) = false /\
      passwords (snd (savePassword entry locked)) = passwords locked).
Proof.
  intros Hk w'. subst w'. unfold savePassword. rewrite Hk.
  pose proof (decrypt_encrypt (json entry) key (entropy w)) as Hrt.
  destruct (encrypt (json entry) key (entropy w)) as [encrypted e'].
  simpl in *.
  split; [reflexivity|]. split.
  { exists encrypted. now rewrite lookup_insert_eq. }
  split.
  { intros other Hne. now rewrite lookup_insert_ne. }
  split; [reflexivity|]. split; [reflexivity|].
  intros locked Hl. unfold isUnlocked in Hl.
  destruct (masterKey (manager locked)); [discriminate|]. auto.
Qed.

Lemma saved_password_reads_back_witness :
  let w' := snd (savePassword p1 unlocked0) in
  fst (savePassword p1 unlocked0) = true /\
  (exists stored,
      passwords w' !! entry_id p1 = Some stored /\
      @decrypt toy stored (@deriveKey toy "Tr0ub4dor&3" salt0)
        = inr (TextEncoder_encode (json p1))) /\
  (forall other, other <> entry_id p1 ->
      passwords w' !! other = passwords unlocked0 !! other) /\
  manager w' = manager unlocked0 /\ pendingTimers w' = pendingTimers unlocked0 /\
  (forall locked : @World toy,
      isUnlocked locked = false ->
      fst (savePassword p1 locked) = false /\
      passwords (snd (savePassword p1 locked)) = passwords locked).
Proof.
  apply (@saved_password_reads_back toy toy_correct p1 unlocked0
           (@deriveKey toy "Tr0ub4dor&3" salt0)).
  reflexivity.
Defined.

End KeyManagerHistories.

(* --------------------------------------------------------------------- *)
(** ** Spending analytics: errors, categories and members                 *)
(* --------------------------------------------------------------------- *)

Section AnalyticsMoreFacts.
Import SubscriptionAnalytics Samples.

(** The loop throws exactly when it meets a subscription whose category
    was not initialised. *)
Lemma forEach_accumulate_None settings (l : list SubscriptionEntry) :
  forall acc,
    forEach (accumulate settings) l acc = None <->
    exists sub, In sub l /\ acc !! categoryOf sub = None.
Proof.
  induction l as [|x l IH]; intros acc; simpl.
  - split; [discriminate|intros (? & [] & _)].
  - unfold accumulate at 1.
    destruct (acc !! categoryOf x) as [dx|] eqn:Hx.
    + rewrite IH. split.
      * intros (sub & Hin & Hnone). exists sub. split; [now right|].
        rewrite lookup_insert in Hnone. case_decide; [discriminate|exact Hnone].
      * intros (sub & [<-|Hin] & Hnone); [congruence|].
        exists sub. split; [exact Hin|].
        rewrite lookup_insert. case_decide; [congruence|exact Hnone].
    + split; [|reflexivity]. intros _. exists x. auto.
Qed.

(** X14. [categoryAnalytics] throws exactly when some active subscription
    has a category (its own, or 'Other' when it has none) that is not one
    of [SUBSCRIPTION_CATEGORIES]; inactive subscriptions never make it
    throw. *)
Theorem categoryAnalytics_throws_iff
    (cats : list string) (settings : CurrencySettings)
    (subs : list SubscriptionEntry) :
  categoryAnalytics cats settings subs = None <->
  exists sub,
    In sub subs /\ isActive sub = true /\ ~ In (categoryOf sub) cats.
Proof.
  unfold categoryAnalytics. rewrite forEach_accumulate_None. split.
  - intros (sub & Hin & Hnone). apply filter_In in Hin as [Hin Hact].
    exists sub. repeat split; try assumption.
    intros Hc. apply initCategories_is_Some in Hc as [d Hd]. congruence.
  - intros (sub & Hin & Hact & Hnot). exists sub. split.
    + apply filter_In. auto.
    + destruct (initCategories cats !! categoryOf sub) eqn:Hd; [|reflexivity].
      exfalso. apply Hnot. apply initCategories_is_Some. eauto.
Qed.

(** The members of a category grow with the loop, in list order. *)
Lemma forEach_accumulate_members settings (l : list SubscriptionEntry) :
  forall acc data,
    forEach (accumulate settings) l acc = Some data ->
    forall c d0,
      acc !! c = Some d0 ->
      exists d, data !! c = Some d /\
        subscriptions d =
          subscriptions d0
          ++ List.filter (fun sub => String.eqb (categoryOf sub) c) l /\
        count d =
          (count d0
           + N.of_nat (length (List.filter
                                 (fun sub => String.eqb (categoryOf sub) c) l)))%N.
Proof.
  induction l as [|x l IH]; simpl; intros acc data Hrun c d0 Hc.
  - injection Hrun as <-. exists d0. rewrite app_nil_r. split; [exact Hc|].
    split; [reflexivity|lia].
  - destruct (accumulate settings acc x) as [acc'|] eqn:Hacc; [|discriminate].
    unfold accumulate in Hacc.
    destruct (acc !! categoryOf x) as [dx|] eqn:Hx; [|discriminate].
    injection Hacc as <-.
    destruct (String.eqb_spec (categoryOf x) c) as [Heq|Hne].
    + subst c. assert (dx = d0) by congruence. subst dx.
      destruct (IH _ data Hrun (categoryOf x) _ (lookup_insert_eq _ _ _))
        as (d & Hd & Hs & Hn).
      exists d. split; [exact Hd|]. simpl in *. split.
      * now rewrite Hs, <- app_assoc.
      * rewrite Hn. lia.
    + apply (IH _ data Hrun c d0). now rewrite lookup_insert_ne.
Qed.

(** X15. When [categoryAnalytics] returns, its result has an entry for
    exactly the categories of [SUBSCRIPTION_CATEGORIES]; the entry of a
    category lists the active subscriptions of that category, in their
    original order, its count is their number, and a category without an
    active subscription has all totals at zero. *)
Theorem category_members
    (cats : list string) (settings : CurrencySettings)
    (subs : list SubscriptionEntry) (data : gmap string CategoryTotals) :
  categoryAnalytics cats settings subs = Some data ->
  (forall c, is_Some (data !! c) <-> In c cats) /\
  (forall c d, data !! c = Some d ->
     subscriptions d = activeIn c subs /\
     count d = N.of_nat (length (activeIn c subs)) /\
     (activeIn c subs = [] -> d = zeroTotals)).
Proof.
  unfold categoryAnalytics. intros Hrun. split.
  - intros c. rewrite initCategories_is_Some.
    pose proof (forEach_accumulate settings _ _ _ Hrun c) as Hinv.
    destruct (initCategories cats !! c) as [d0|].
    + destruct Hinv as (d & -> & _). split; eauto.
    + rewrite Hinv. split; intros [? ?]; discriminate.
  - intros c d Hd.
    pose proof (forEach_accumulate settings _ _ _ Hrun c) as Hinv.
    destruct (initCategories cats !! c) as [d0|] eqn:H0; [|congruence].
    destruct (forEach_accumulate_members settings _ _ _ Hrun c d0 H0)
      as (d' & Hd' & Hs & Hn).
    destruct Hinv as (d'' & Hd'' & Hm & Hy).
    assert (d' = d) by congruence. assert (d'' = d) by congruence. subst d' d''.
    apply initCategories_lookup in H0. subst d0. simpl in Hs, Hn, Hm, Hy.
    rewrite filter_filter in Hs, Hn, Hm, Hy. fold (activeIn c subs) in Hs, Hn, Hm, Hy.
    split; [exact Hs|]. split; [rewrite Hn; lia|].
    intros Hempty. rewrite Hempty in *. simpl in *.
    destruct d as [m y n s]. simpl in *. subst. reflexivity.
Qed.

Lemma category_members_witness :
  exists data,
    categoryAnalytics categories DEFAULT_CURRENCY_SETTINGS portfolio = Some data /\
    (forall c, is_Some (data !! c) <-> In c categories) /\
    (forall c d, data !! c = Some d ->
       subscriptions d = activeIn c portfolio /\
       count d = N.of_nat (length (activeIn c portfolio)) /\
       (activeIn c portfolio = [] -> d = zeroTotals)).
Proof.
  destruct (categoryAnalytics categories DEFAULT_CURRENCY_SETTINGS portfolio)
    as [data|] eqn:Hrun; [|vm_compute in Hrun; discriminate].
  exists data. split; [reflexivity|].
  exact (category_members categories DEFAULT_CURRENCY_SETTINGS portfolio data Hrun).
Defined.

Example portfolio_entertainment_members :
  (categoryAnalytics categories DEFAULT_CURRENCY_SETTINGS portfolio
     ≫= fun data => (fun d => (count d, List.map name (subscriptions d)))
                      <$> data !! "Entertainment")
  = Some (2%N, ["Streaming"; "Music"]).
Proof. vm_compute. reflexivity. Qed.

(** A stored rate of 0 is falsy and counts as 1. *)
Example zero_rate_counts_as_one :
  convertToBaseCurrency
    {| baseCurrency := "USD";
       exchangeRates := <["USD" := 1%float]> (<["XXX" := 0%float]> ∅) |}
    10%float "XXX" = 10%float.
Proof. vm_compute. reflexivity. Qed.

End AnalyticsMoreFacts.

(* --------------------------------------------------------------------- *)
(** ** The secure memory manager                                          *)
(* --------------------------------------------------------------------- *)

Section SecureMemoryFacts.
Import SecureMemoryManager MoreSamples.

Lemma mapGet_mapSet (m : SensitiveData) key data :
  mapGet (mapSet m key data) key = Some data.
Proof.
  induction m as [|[k v] rest IH]; simpl.
  - now rewrite String.eqb_refl.
  - destruct (String.eqb k key) eqn:E; simpl; rewrite E; [reflexivity|exact IH].
Qed.

Lemma mapGet_mapSet_other (m : SensitiveData) key other data :
  other <> key -> mapGet (mapSet m key data) other = mapGet m other.
Proof.
  intros Hne. induction m as [|[k v] rest IH]; simpl.
  - destruct (String.eqb_spec key other); [congruence|reflexivity].
  - destruct (String.eqb_spec k key) as [->|Hk]; simpl.
    + destruct (String.eqb_spec key other); [congruence|reflexivity].
    + now rewrite IH.
Qed.

Lemma mapSet_length (m : SensitiveData) key data :
  length (mapSet m key data)
  = match mapGet m key with
    | Some _ => length m
    | None => S (length m)
    end.
Proof.
  induction m as [|[k v] rest IH]; simpl; [reflexivity|].
  destruct (String.eqb k key); simpl; [reflexivity|].
  rewrite IH. now destruct (mapGet rest key).
Qed.

(** X16. What [store] files under a key is what [retrieve] gives back for
    that key; the other keys keep their values; and storing under a key
    that is present replaces its value without adding an entry. *)
Theorem store_then_retrieve
    (m : SensitiveData) (key : string) (data : Value) :
  retrieve key (store key data m) = Some data /\
  (forall other, other <> key ->
     retrieve other (store key data m) = retrieve other m) /\
  (forall old, retrieve key m = Some old ->
     length (store key data m) = length m) /\
  (retrieve key m = None -> length (store key data m) = S (length m)).
Proof.
  unfold retrieve, store. split; [apply mapGet_mapSet|]. split.
  - intros other Hne. now apply mapGet_mapSet_other.
  - split; [intros old H|intros H]; now rewrite mapSet_length, H.
Qed.

(** X17. [clear()] does not wipe a string secret. A non-empty string
    that can be retrieved before [clear()] can still be retrieved after it,
    unchanged, and [clear()] has thrown instead of returning. *)
Theorem clear_keeps_string_secrets
    (m : SensitiveData) (key s : string) :
  retrieve key m = Some (VString s) ->
  s <> "" ->
  retrieve key (fst (clear m)) = Some (VString s) /\
  snd (clear m) = false.
Proof.
  unfold retrieve. intros Hget Hne.
  induction m as [|[k v] rest IH]; simpl in *; [discriminate|].
  destruct (String.eqb k key) eqn:E.
  - injection Hget as ->. destruct s as [|a s']; [contradiction|]. simpl.
    now rewrite E.
  - destruct v as [s0|tag]; [|now apply IH].
    destruct (0 <? String.length s0)%nat; [|now apply IH].
    simpl. rewrite E. split; [exact Hget|reflexivity].
Qed.

Lemma clear_keeps_string_secrets_witness :
  retrieve "pin" (fst (clear secrets)) = Some (VString "0000") /\
  snd (clear secrets) = false.
Proof.
  apply (clear_keeps_string_secrets secrets "pin" "0000");
    [reflexivity|discriminate].
Defined.

(** X18. [clear()] returns exactly when no value in the map is a
    non-empty string, and then it leaves the map empty; otherwise it throws
    at the first such entry, having deleted the entries before it and none
    from it on. *)
Theorem clear_returns_iff_no_string (m : SensitiveData) :
  (snd (clear m) = true <->
   forallb (fun entry => negb (isNonEmptyString (snd entry))) m = true) /\
  (snd (clear m) = true -> fst (clear m) = []) /\
  (snd (clear m) = false ->
   exists before key value rest,
     m = before ++ (key, value) :: rest /\
     forallb (fun entry => negb (isNonEmptyString (snd entry))) before = true /\
     isNonEmptyString value = true /\
     fst (clear m) = (key, value) :: rest).
Proof.
  induction m as [|[k v] rest (IHiff & IHempty & IHthrow)]; simpl.
  - repeat split; auto; discriminate.
  - destruct v as [s|tag]; simpl.
    + destruct (0 <? String.length s)%nat eqn:Hs; simpl.
      * split; [split; discriminate|]. split; [discriminate|].
        intros _. exists [], k, (VString s), rest. simpl. auto.
      * split; [exact IHiff|]. split; [exact IHempty|].
        intros Hf. destruct (IHthrow Hf) as (before & key & value & rest' & -> & ? & ? & ?).
        exists ((k, VString s) :: before), key, value, rest'. simpl.
        rewrite Hs. simpl. auto.
    + split; [exact IHiff|]. split; [exact IHempty|].
      intros Hf. destruct (IHthrow Hf) as (before & key & value & rest' & -> & ? & ? & ?).
      exists ((k, VOther tag) :: before), key, value, rest'. simpl. auto.
Qed.

Example clear_sample :
  clear secrets
  = ([("token", VString "s3cr3t"); ("pin", VString "0000")], false).
Proof. reflexivity. Qed.

End SecureMemoryFacts.

(* --------------------------------------------------------------------- *)
(** ** Batched writes                                                     *)
(* --------------------------------------------------------------------- *)

Section SaveBatchFacts.
Import OptimizedStorage.
Context {T : Type} (keyOf : T -> string).

Lemma chunksFrom_concat (items : list T) :
  forall fuel i,
    (length items - i <= fuel)%nat ->
    concat (chunksFrom fuel i items) = skipn i items.
Proof.
  induction fuel as [|fuel IH]; intros i Hfuel; simpl.
  - symmetry. apply skipn_all2. lia.
  - destruct (Nat.ltb_spec i (length items)) as [Hlt|Hge].
    + simpl. rewrite IH by (unfold chunkSize; lia).
      unfold slice. replace (i + chunkSize - i)%nat with chunkSize by lia.
      replace (i + chunkSize)%nat with (chunkSize + i)%nat by lia.
      rewrite <- skipn_skipn. apply firstn_skipn.
    + symmetry. apply skipn_all2. lia.
Qed.

Lemma chunksFrom_sizes (items : list T) :
  forall fuel i,
    Forall (fun chunk => (0 < length chunk <= chunkSize)%nat)
           (chunksFrom fuel i items).
Proof.
  induction fuel as [|fuel IH]; intros i; simpl; [constructor|].
  destruct (Nat.ltb_spec i (length items)) as [Hlt|Hge]; [|constructor].
  constructor; [|apply IH].
  unfold slice. rewrite length_firstn, length_skipn. unfold chunkSize. lia.
Qed.

Lemma fold_left_chunks (cs : list (list T)) :
  forall st : gmap string T,
    fold_left (fun st chunk => fold_left (put keyOf) chunk st) cs st
    = fold_left (put keyOf) (concat cs) st.
Proof.
  induction cs as [|c cs IH]; intros st; simpl; [reflexivity|].
  now rewrite IH, fold_left_app.
Qed.

(** X19. Batching changes nothing but the grouping: the chunks taken by
    [saveBatch] are the items in their order, none lost and none twice,
    every chunk has between 1 and 100 items, and the object store ends up
    as if every item had been put one after the other. *)
Theorem saveBatch_puts_every_item_once
    (items : list T) (objectStore : gmap string T) :
  concat (chunks items) = items /\
  Forall (fun chunk => (0 < length chunk <= 100)%nat) (chunks items) /\
  saveBatch keyOf items objectStore = fold_left (put keyOf) items objectStore.
Proof.
  assert (Hc : concat (chunks items) = items).
  { unfold chunks. rewrite chunksFrom_concat by lia. reflexivity. }
  split; [exact Hc|]. split; [apply chunksFrom_sizes|].
  unfold saveBatch. now rewrite fold_left_chunks, Hc.
Qed.

Example chunks_of_250 :
  List.map (@length nat) (chunks (List.seq 0 250)) = [100; 100; 50]%nat.
Proof. vm_compute. reflexivity. Qed.

End SaveBatchFacts.
